(** * universal_api_client: authentication strategies, the request executor
      and the pagination engine of [universal_client.py]

    The Python module is embedded shallowly.  Python values that cross the
    JSON boundary are kept dynamically typed ([value]); dictionaries that
    the client builds and mutates ([params], [headers], [kwargs]) are finite
    maps, and the dictionaries a caller hands to [get_all] live in a store so
    that copying and aliasing are visible.  The network and the wall clock
    are the only collaborators outside the module: the network is a finite
    script of replies still to be delivered together with the log of the
    requests issued so far, the clock counts whole seconds.  Text written by
    [print] is not part of the model; the expressions a [print] evaluates
    are. *)

From Stdlib Require Import Ascii.
From stdpp Require Import base option list strings pretty gmap fin_maps.

Local Open Scope Z_scope.

(** ** Python values *)

#[warnings="-register-all"]
Inductive value :=
| VNone
| VBool (b : bool)
| VInt (n : Z)
| VStr (s : string)
| VList (l : list value)
| VDict (d : list (string * value)).

(** Dictionaries built by the client itself. *)
Abbreviation dict := (gmap string value).

(** [bool(v)] *)
Definition truthy (v : value) : bool :=
  match v with
  | VNone => false
  | VBool b => b
  | VInt n => negb (n =? 0)
  | VStr s => negb (String.eqb s "")
  | VList l => match l with [] => false | _ => true end
  | VDict d => match d with [] => false | _ => true end
  end.

(** [v is None] *)
Definition is_None (v : value) : bool :=
  match v with VNone => true | _ => false end.

(** [repr(v)] and [str(v)].  Strings are quoted with single quotes and not
    escaped, which is what Python prints for strings free of quotes,
    backslashes and control characters. *)
Fixpoint py_repr (v : value) : string :=
  match v with
  | VNone => "None"
  | VBool true => "True"
  | VBool false => "False"
  | VInt n => pretty n
  | VStr s => "'" +:+ s +:+ "'"
  | VList l =>
      "[" +:+
      (fix elems (l : list value) : string :=
         match l with
         | [] => ""
         | [x] => py_repr x
         | x :: l' => py_repr x +:+ ", " +:+ elems l'
         end) l +:+ "]"
  | VDict d =>
      "{" +:+
      (fix entries (d : list (string * value)) : string :=
         match d with
         | [] => ""
         | [(k, x)] => "'" +:+ k +:+ "': " +:+ py_repr x
         | (k, x) :: d' => "'" +:+ k +:+ "': " +:+ py_repr x +:+ ", " +:+ entries d'
         end) d +:+ "}"
  end.

Definition py_str (v : value) : string :=
  match v with
  | VStr s => s
  | _ => py_repr v
  end.

(** Lookup in a parsed JSON object. *)
Fixpoint assoc (k : string) (d : list (string * value)) : option value :=
  match d with
  | [] => None
  | (k', v) :: d' => if String.eqb k k' then Some v else assoc k d'
  end.

(** [str.lstrip(c)] and [str.rstrip(c)] for a one-character argument. *)
Fixpoint lstrip (c : ascii) (s : string) : string :=
  match s with
  | EmptyString => EmptyString
  | String a s' => if Ascii.eqb a c then lstrip c s' else s
  end.

Fixpoint rstrip (c : ascii) (s : string) : string :=
  match s with
  | EmptyString => EmptyString
  | String a s' =>
      match rstrip c s' with
      | EmptyString => if Ascii.eqb a c then EmptyString else String a EmptyString
      | r => String a r
      end
  end.

(** ** The world outside the module *)

Inductive exn :=
| ValueError (msg : string)
| KeyError (key : string)
| TypeError
| AttributeError
| JSONDecodeError
| HTTPError (status : Z)
| ConnectionError.

(** What the HTTP library is asked to send: [requests.post(url, data=...,
    auth=...)] and [requests.request(method, url, headers=..., params=...,
    **kwargs)]. *)
Inductive Request :=
| Post (url : string) (data : dict) (auth : string * string)
| Req (method url : string) (headers params kwargs : dict).

(** A reply the network delivers: it arrives [delay] seconds after the
    request left; [body] is the parsed JSON document, [None] when the body
    is not JSON. *)
Record Reply := {
  delay : Z;
  status_code : Z;
  body : option value;
}.

Definition loc := positive.

Record State := {
  access_token : value;       (* ClientCredentialsAuth.access_token *)
  expiry_time : Z;            (* ClientCredentialsAuth.expiry_time *)
  clock : Z;                  (* what time.time() reads *)
  inbox : list Reply;         (* replies still to be delivered *)
  sent : list Request;        (* requests issued, oldest first *)
  heap : gmap loc dict;       (* dictionaries that callers share *)
}.

Definition set_access_token (v : value) (s : State) : State :=
  {| access_token := v; expiry_time := expiry_time s; clock := clock s;
     inbox := inbox s; sent := sent s; heap := heap s |}.

Definition set_expiry_time (t : Z) (s : State) : State :=
  {| access_token := access_token s; expiry_time := t; clock := clock s;
     inbox := inbox s; sent := sent s; heap := heap s |}.

Definition set_clock (t : Z) (s : State) : State :=
  {| access_token := access_token s; expiry_time := expiry_time s; clock := t;
     inbox := inbox s; sent := sent s; heap := heap s |}.

Definition set_inbox (i : list Reply) (s : State) : State :=
  {| access_token := access_token s; expiry_time := expiry_time s;
     clock := clock s; inbox := i; sent := sent s; heap := heap s |}.

Definition set_sent (l : list Request) (s : State) : State :=
  {| access_token := access_token s; expiry_time := expiry_time s;
     clock := clock s; inbox := inbox s; sent := l; heap := heap s |}.

Definition set_heap (h : gmap loc dict) (s : State) : State :=
  {| access_token := access_token s; expiry_time := expiry_time s;
     clock := clock s; inbox := inbox s; sent := sent s; heap := h |}.

(** ** Computations: state, exceptions, and loops cut off by fuel *)

Inductive outcome (A : Type) :=
| Ok (a : A)
| Raise (e : exn)
| OutOfFuel.
Arguments Ok {A} a.
Arguments Raise {A} e.
Arguments OutOfFuel {A}.

Definition M (A : Type) : Type := State → outcome A * State.

Definition ret {A} (a : A) : M A := λ s, (Ok a, s).
Definition raise {A} (e : exn) : M A := λ s, (Raise e, s).
Definition out_of_fuel {A} : M A := λ s, (OutOfFuel, s).

Definition bind {A B} (m : M A) (k : A → M B) : M B :=
  λ s, match m s with
       | (Ok a, s') => k a s'
       | (Raise e, s') => (Raise e, s')
       | (OutOfFuel, s') => (OutOfFuel, s')
       end.

Notation "'let*' x := m 'in' k" := (bind m (λ x, k))
  (at level 10, x name, m at level 100, k at level 200,
   format "'[v' 'let*'  x  :=  m  'in' '/' k ']'").
Notation "m >> k" := (bind m (λ _, k))
  (at level 100, k at level 200, right associativity).

Definition gets {A} (f : State → A) : M A := λ s, (Ok (f s), s).
Definition modify (f : State → State) : M unit := λ s, (Ok tt, f s).

(** [time.time()] *)
Definition time_time : M Z := gets clock.

(** One exchange with the network: the request is logged, then the next
    scripted reply is delivered; with no reply left the transport fails. *)
Definition exchange (r : Request) : M Reply :=
  λ s, let s1 := set_sent (sent s ++ [r]) s in
       match inbox s with
       | [] => (Raise ConnectionError, s1)
       | rep :: rest => (Ok rep, set_clock (clock s + delay rep) (set_inbox rest s1))
       end.

Definition requests_post (url : string) (data : dict) (auth : string * string)
  : M Reply := exchange (Post url data auth).

Definition requests_request (method url : string) (headers params kwargs : dict)
  : M Reply := exchange (Req method url headers params kwargs).

(** [Response.raise_for_status()] of the HTTP library: statuses 400..599. *)
Definition raise_for_status (r : Reply) : M unit :=
  if (400 <=? status_code r) && (status_code r <? 600)
  then raise (HTTPError (status_code r))
  else ret tt.

(** [Response.json()] *)
Definition json (r : Reply) : M value :=
  match body r with
  | Some v => ret v
  | None => raise JSONDecodeError
  end.

(** ** Operations on dynamically typed values *)

(** [v[key]] for a string key *)
Definition subscript (v : value) (key : string) : M value :=
  match v with
  | VDict d => match assoc key d with
               | Some x => ret x
               | None => raise (KeyError key)
               end
  | _ => raise TypeError
  end.

(** [v.get(key, default)] *)
Definition py_get (v : value) (key : string) (default : value) : M value :=
  match v with
  | VDict d => ret (match assoc key d with Some x => x | None => default end)
  | _ => raise AttributeError
  end.

(** [len(v)] *)
Definition py_len (v : value) : M Z :=
  match v with
  | VStr s => ret (Z.of_nat (String.length s))
  | VList l => ret (Z.of_nat (length l))
  | VDict d => ret (Z.of_nat (length d))
  | _ => raise TypeError
  end.

(** The elements [list.extend(v)] appends. *)
Definition py_iter (v : value) : M (list value) :=
  match v with
  | VStr s => ret ((λ a, VStr (String a EmptyString)) <$> String.list_ascii_of_string s)
  | VList l => ret l
  | VDict d => ret ((λ kv, VStr kv.1) <$> d)
  | _ => raise TypeError
  end.

(** A number as Python arithmetic sees it ([bool] is a subtype of [int]). *)
Definition as_int (v : value) : option Z :=
  match v with
  | VInt n => Some n
  | VBool b => Some (if b then 1 else 0)
  | _ => None
  end.

(** [n + v] *)
Definition py_add (n : Z) (v : value) : M Z :=
  match as_int v with
  | Some m => ret (n + m)
  | None => raise TypeError
  end.

(** [n >= v] *)
Definition py_ge (n : Z) (v : value) : M bool :=
  match as_int v with
  | Some m => ret (m <=? n)
  | None => raise TypeError
  end.

(** ** Dictionaries in the store *)

Definition dict_truthy (d : dict) : bool := negb (bool_decide (d = ∅)).

Definition deref (l : loc) : M dict :=
  gets (λ s, default ∅ (heap s !! l)).

(** A new dictionary object with the entries of [d]. *)
Definition alloc (d : dict) : M loc :=
  λ s, let l := fresh (dom (heap s)) in
       (Ok l, set_heap (<[l := d]> (heap s)) s).

(** [l[k] = v] *)
Definition store (l : loc) (k : string) (v : value) : M unit :=
  modify (λ s, set_heap (<[l := <[k := v]> (default ∅ (heap s !! l))]> (heap s)) s).

(** ** Pagination strategy tags *)

Module PaginationStrategy.
Definition OFFSET : string := "offset".
Definition PAGE : string := "page".
Definition HAS_MORE : string := "has_more".
End PaginationStrategy.

(** ** Authentication *)

(** The dictionary [{"headers": ..., "params": ...}] every strategy returns. *)
Record AuthData := {
  auth_headers : dict;
  auth_params : dict;
}.

Module BaseAuth.
Definition get_auth_data : M AuthData :=
  ret {| auth_headers := ∅; auth_params := ∅ |}.
End BaseAuth.

Module APIKeyAuth.

Record t := {
  api_key : value;
  location : string;
  name : string;
  extra_headers : dict;
}.

Definition __init__ (api_key : value) (location name : string)
    (extra_headers : option dict) : t :=
  {| api_key := api_key; location := location; name := name;
     extra_headers := match extra_headers with
                      | Some d => if dict_truthy d then d else ∅
                      | None => ∅
                      end |}.

Definition get_auth_data (self : t) : M AuthData :=
  if String.eqb (location self) "header" then
    let headers : dict := {[ name self := api_key self ]} in
    (* headers.update(extra_headers): entries of extra_headers replace *)
    let headers := extra_headers self ∪ headers in
    ret {| auth_headers := headers; auth_params := ∅ |}
  else if String.eqb (location self) "query" then
    ret {| auth_headers := extra_headers self;
           auth_params := {[ name self := api_key self ]} |}
  else
    raise (ValueError "Invalid API key location").

End APIKeyAuth.

Module ClientCredentialsAuth.

(** The token and its expiry are the [access_token] and [expiry_time]
    components of the state; the instance itself keeps the credentials. *)
Record t := {
  token_url : string;
  client_id : string;
  client_secret : string;
}.

(** [__init__] also sets [access_token = None] and [expiry_time = 0]. *)
Definition __init__ (token_url client_id client_secret : string) : M t :=
  modify (set_access_token VNone) >>
  modify (set_expiry_time 0) >>
  ret {| token_url := token_url; client_id := client_id;
         client_secret := client_secret |}.

Definition _authenticate (self : t) : M unit :=
  let* response :=
    requests_post (token_url self)
      {[ "grant_type" := VStr "client_credentials" ]}
      (client_id self, client_secret self) in
  raise_for_status response >>
  let* token_data := json response in
  let* tok := subscript token_data "access_token" in
  modify (set_access_token tok) >>
  let* expires_in := py_get token_data "expires_in" (VInt 3600) in
  let* now := time_time in
  let* expiry := py_add now expires_in in
  modify (set_expiry_time expiry).

Definition force_refresh (self : t) : M unit :=
  modify (set_access_token VNone) >>
  modify (set_expiry_time 0) >>
  _authenticate self.

(** [not self.access_token or time.time() >= self.expiry_time] *)
Definition needs_token (s : State) : bool :=
  negb (truthy (access_token s)) || (expiry_time s <=? clock s).

Definition get_auth_data (self : t) : M AuthData :=
  let* stale := gets needs_token in
  (if stale then _authenticate self else ret tt) >>
  let* tok := gets access_token in
  ret {| auth_headers := {[ "Authorization" := VStr ("Bearer " +:+ py_str tok) ]};
         auth_params := ∅ |}.

End ClientCredentialsAuth.

(** ** The client *)

(** The auth configuration mapping, one optional entry per key it may hold. *)
Record Config := {
  cfg_auth_type : option string;
  cfg_api_key : option value;
  cfg_location : option string;
  cfg_name : option string;
  cfg_extra_headers : option dict;
  cfg_token_url : option string;
  cfg_client_id : option string;
  cfg_client_secret : option string;
}.

(** [config[key]] *)
Definition required {A} (key : string) (o : option A) : M A :=
  match o with
  | Some a => ret a
  | None => raise (KeyError key)
  end.

Inductive Auth :=
| AuthAPIKey (a : APIKeyAuth.t)
| AuthClientCredentials (c : ClientCredentialsAuth.t).

(** [isinstance(auth, ClientCredentialsAuth)] *)
Definition is_client_credentials (a : Auth) : bool :=
  match a with
  | AuthClientCredentials _ => true
  | AuthAPIKey _ => false
  end.

(** [self.auth.get_auth_data()] *)
Definition auth_get_auth_data (a : Auth) : M AuthData :=
  match a with
  | AuthAPIKey k => APIKeyAuth.get_auth_data k
  | AuthClientCredentials c => ClientCredentialsAuth.get_auth_data c
  end.

(** [self.auth.force_refresh()]; only reached for client credentials. *)
Definition auth_force_refresh (a : Auth) : M unit :=
  match a with
  | AuthClientCredentials c => ClientCredentialsAuth.force_refresh c
  | AuthAPIKey _ => raise AttributeError
  end.

Inductive loop_ctl (S A : Type) :=
| Continue (st : S)
| Break (r : A).
Arguments Continue {S A} st.
Arguments Break {S A} r.

(** [while ...: body], cut off after [fuel] iterations. *)
Fixpoint while {S A} (fuel : nat) (body : S → M (loop_ctl S A)) (st : S) : M A :=
  match fuel with
  | O => out_of_fuel
  | Datatypes.S fuel' =>
      let* c := body st in
      match c with
      | Break r => ret r
      | Continue st' => while fuel' body st'
      end
  end.

Module UniversalAPIClient.

Record t := {
  base_url : string;
  auth : Auth;
}.

Definition _create_auth (config : Config) : M Auth :=
  let auth_type := cfg_auth_type config in
  if bool_decide (auth_type = Some "api_key") then
    let* api_key := required "api_key" (cfg_api_key config) in
    ret (AuthAPIKey
           (APIKeyAuth.__init__ api_key
              (default "header" (cfg_location config))
              (default "x-api-key" (cfg_name config))
              (Some (default ∅ (cfg_extra_headers config)))))
  else if bool_decide (auth_type = Some "client_credentials") then
    let* token_url := required "token_url" (cfg_token_url config) in
    let* client_id := required "client_id" (cfg_client_id config) in
    let* client_secret := required "client_secret" (cfg_client_secret config) in
    let* c := ClientCredentialsAuth.__init__ token_url client_id client_secret in
    ret (AuthClientCredentials c)
  else
    raise (ValueError "Unsupported auth type").

Definition __init__ (base_url : string) (auth_config : Config) : M t :=
  let base_url := rstrip "/"%char base_url in
  let* auth := _create_auth auth_config in
  ret {| base_url := base_url; auth := auth |}.

(** [f"{self.base_url}/{endpoint.lstrip('/')}"] *)
Definition request_url (self : t) (endpoint : string) : string :=
  base_url self +:+ "/" +:+ lstrip "/"%char endpoint.

Definition _make_request (self : t) (method endpoint : string)
    (params : option loc) (kwargs : dict) : M Reply :=
  let url := request_url self endpoint in
  let* auth_data := auth_get_auth_data (auth self) in
  let headers := auth_headers auth_data in
  let auth_params := auth_params auth_data in
  let final_params : dict := ∅ in
  let* final_params :=
    match params with
    | Some l =>
        let* d := deref l in
        (* final_params.update(params) *)
        if dict_truthy d then ret (d ∪ final_params) else ret final_params
    | None => ret final_params
    end in
  (* final_params.update(auth_params) *)
  let final_params := auth_params ∪ final_params in
  let* response := requests_request method url headers final_params kwargs in
  let* response :=
    if (status_code response =? 401) && is_client_credentials (auth self) then
      auth_force_refresh (auth self) >>
      let* auth_data := auth_get_auth_data (auth self) in
      let headers := auth_headers auth_data in
      requests_request method url headers final_params kwargs
    else ret response in
  raise_for_status response >>
  ret response.

Definition get (self : t) (endpoint : string) (params : option loc) : M value :=
  let* response := _make_request self "GET" endpoint params ∅ in
  json response.

Definition post (self : t) (endpoint : string) (json_body : value) : M value :=
  let* response := _make_request self "POST" endpoint None {[ "json" := json_body ]} in
  json response.

(** [params.copy() if params else {}] *)
Definition copy_params (params : option loc) : M loc :=
  match params with
  | Some l =>
      let* d := deref l in
      if dict_truthy d then alloc d else alloc ∅
  | None => alloc ∅
  end.

(** Body of the OFFSET loop; the loop variables are
    [(offset, total_count, results)]. *)
Definition offset_body (self : t) (endpoint : string) (params : loc)
    (offset_field : string) (limit : value)
    (st : Z * value * list value) : M (loop_ctl (Z * value * list value) (list value)) :=
  let '(offset, total_count, results) := st in
  store params offset_field (VInt offset) >>
  let* response := get self endpoint (Some params) in
  let* data := py_get response "orders" (VList []) in
  let* _ := py_len data in
  let* items := py_iter data in
  let results := results ++ items in
  let* total_count :=
    if is_None total_count then py_get response "total_count" VNone
    else ret total_count in
  let* offset := py_add offset limit in
  if 25 <=? offset then ret (Break results)
  else
    let* reached :=
      if negb (is_None total_count) then py_ge offset total_count
      else ret false in
    if reached then ret (Break results)
    else if negb (truthy data) then ret (Break results)
    else ret (Continue (offset, total_count, results)).

(** Body of the PAGE loop; the loop variables are [(page, results)]. *)
Definition page_body (self : t) (endpoint : string) (params : loc)
    (page_field : string)
    (st : Z * list value) : M (loop_ctl (Z * list value) (list value)) :=
  let '(page, results) := st in
  store params page_field (VInt page) >>
  let* response := get self endpoint (Some params) in
  let* data := py_get response "orders" (VList []) in
  let* _ := py_len data in
  let* items := py_iter data in
  let results := results ++ items in
  let* total_pages := py_get response "total_pages" VNone in
  if 3 <? page then ret (Break results)
  else if negb (is_None total_pages) then
    let* last := py_ge page total_pages in
    if last then ret (Break results)
    else ret (Continue (page + 1, results))
  else if negb (truthy data) then ret (Break results)
  else ret (Continue (page + 1, results)).

(** Body of the HAS_MORE loop, with the test of [while has_more] at its
    head; the loop variables are [(has_more, iteration, results)]. *)
Definition has_more_body (self : t) (endpoint : string) (params : loc)
    (has_more_field : string)
    (st : value * Z * list value) : M (loop_ctl (value * Z * list value) (list value)) :=
  let '(has_more, iteration, results) := st in
  if negb (truthy has_more) then ret (Break results)
  else
    let* response := get self endpoint (Some params) in
    let* data := py_get response "orders" (VList []) in
    let iteration := iteration + 1 in
    let* _ := py_len data in
    let* items := py_iter data in
    let results := results ++ items in
    let* has_more := py_get response has_more_field (VBool false) in
    if 3 <=? iteration then ret (Break results)
    else ret (Continue (has_more, iteration, results)).

(** [get_all]; its [headers] argument is never read by the source and is
    left out.  Each loop is run with more fuel than there are replies left
    to deliver, see [get_all_terminates]. *)
Definition get_all (self : t) (endpoint : string) (params : option loc)
    (strategy : string)
    (limit_field offset_field page_field per_page_field has_more_field : string)
  : M (list value) :=
  let results : list value := [] in
  let* params := copy_params params in
  let* fuel := gets (λ s, S (length (inbox s))) in
  if String.eqb strategy PaginationStrategy.OFFSET then
    let offset := 0 in
    let* d := deref params in
    let limit := default (VInt 50) (d !! limit_field) in
    let total_count := VNone in
    while fuel (offset_body self endpoint params offset_field limit)
      (offset, total_count, results)
  else if String.eqb strategy PaginationStrategy.PAGE then
    let page := 1 in
    let* d := deref params in
    let per_page := default (VInt 50) (d !! per_page_field) in
    while fuel (page_body self endpoint params page_field) (page, results)
  else if String.eqb strategy PaginationStrategy.HAS_MORE then
    let has_more := VBool true in
    let iteration := 0 in
    while fuel (has_more_body self endpoint params has_more_field)
      (has_more, iteration, results)
  else
    ret results.

End UniversalAPIClient.

(** ** Vocabulary of the specification *)

(** The source defines no exception classes of its own.  The spec's
    ConfigurationError is the [ValueError] that a dispatch on a tag raises;
    its AuthenticationError covers what escapes [_authenticate]: the token
    endpoint cannot be reached, answers with a failure status, or answers
    without an [access_token]. *)
Definition ConfigurationError (e : exn) : Prop := ∃ msg, e = ValueError msg.


(** A status [raise_for_status] lets through. *)
Definition status_ok (status : Z) : bool :=
  negb ((400 <=? status) && (status <? 600)).

Definition is_post (r : Request) : bool :=
  match r with Post _ _ _ => true | Req _ _ _ _ _ => false end.

Definition is_req (r : Request) : bool :=
  match r with Req _ _ _ _ _ => true | Post _ _ _ => false end.

(** Requests issued between two states of one run. *)
Definition issued (s s' : State) : list Request :=
  drop (length (sent s)) (sent s').

(** Token fetches and API calls among them. *)
Definition token_fetches (s s' : State) : list Request :=
  filter (λ r, is_post r = true) (issued s s').

Definition api_calls (s s' : State) : list Request :=
  filter (λ r, is_req r = true) (issued s s').

(** [n] slashes. *)
Fixpoint slashes (n : nat) : string :=
  match n with
  | O => EmptyString
  | S n' => String "/" (slashes n')
  end.

Definition starts_with (c : ascii) (s : string) : bool :=
  match s with
  | EmptyString => false
  | String a _ => Ascii.eqb a c
  end.

Fixpoint ends_with (c : ascii) (s : string) : bool :=
  match s with
  | EmptyString => false
  | String a EmptyString => Ascii.eqb a c
  | String _ s' => ends_with c s'
  end.

(** The stop test of the OFFSET loop in the words of the spec: the offset
    exceeds 25, or the total is known and reached, or the page is empty. *)
Definition spec_offset_stop (offset : Z) (total_count : option Z)
    (page : list value) : bool :=
  (25 <? offset)
  || match total_count with Some t => t <=? offset | None => false end
  || match page with [] => true | _ => false end.

(** The stop test of the OFFSET loop as the source has it: the offset has
    reached 25, or the total is known and reached, or the page is empty. *)
Definition amended_offset_stop (offset : Z) (total_count : option Z)
    (page : list value) : bool :=
  (25 <=? offset)
  || match total_count with Some t => t <=? offset | None => false end
  || match page with [] => true | _ => false end.

(** [reaches body st s k st' s']: from loop variables [st] in state [s],
    [k] iterations that each end in [continue] lead to [st'] in [s']. *)
Inductive reaches {S A : Type} (body : S → M (loop_ctl S A))
  : S → State → nat → S → State → Prop :=
| reaches_here st s : reaches body st s 0 st s
| reaches_step st s st1 s1 k st' s' :
    body st s = (Ok (Continue st1), s1) →
    reaches body st1 s1 k st' s' →
    reaches body st s (Datatypes.S k) st' s'.

(** The token request of [_authenticate]. *)
Definition token_request (self : ClientCredentialsAuth.t) : Request :=
  Post (ClientCredentialsAuth.token_url self)
    {[ "grant_type" := VStr "client_credentials" ]}
    (ClientCredentialsAuth.client_id self, ClientCredentialsAuth.client_secret self).

(** The state once request [r] has left and reply [rep] has arrived. *)
Definition delivered (r : Request) (rep : Reply) (rest : list Reply)
    (s : State) : State :=
  set_clock (clock s + delay rep) (set_inbox rest (set_sent (sent s ++ [r]) s)).

(** The auth data of a bearer token. *)
Definition bearer (tok : value) : AuthData :=
  {| auth_headers := {[ "Authorization" := VStr ("Bearer " +:+ py_str tok) ]};
     auth_params := ∅ |}.

(** The query parameters [_make_request] sends: the caller's, overlaid
    with those of the auth data. *)
Definition merged_params (params : option loc) (auth_params : dict)
    (s : State) : dict :=
  auth_params ∪ match params with
                | Some l => default ∅ (heap s !! l)
                | None => ∅
                end.

(** ** Predicates on computations *)

(** [preserves R m]: every run of [m], whatever its outcome, relates the
    state before to the state after. *)
Definition preserves (R : relation State) {A} (m : M A) : Prop :=
  ∀ s, R s (m s).2.

Definition same_heap : relation State := λ s s', heap s' = heap s.

Definition frame (l : loc) : relation State :=
  λ s s', heap s' !! l = heap s !! l.

Definition inbox_le : relation State :=
  λ s s', (length (inbox s') ≤ length (inbox s))%nat.

(** The log only grows, and by requests that satisfy [Φ]. *)
Definition issues (Φ : Request → Prop) : relation State :=
  λ s s', ∃ new, sent s' = sent s ++ new ∧ Forall Φ new.

Definition same_sent : relation State := λ s s', sent s' = sent s.

(** No run of [m] stops for lack of fuel. *)
Definition safe {A} (m : M A) : Prop := ∀ s, (m s).1 ≠ OutOfFuel.

(** A run of [m] that returns a value satisfying [P] has taken a reply
    from the network. *)
Definition consumes {A} (P : A → Prop) (m : M A) : Prop :=
  ∀ s a s', m s = (Ok a, s') → P a → (length (inbox s') < length (inbox s))%nat.

Definition is_continue {S A} (c : loop_ctl S A) : Prop :=
  match c with Continue _ => True | Break _ => False end.

(** ** Sample clients, replies and worlds *)

Definition world (i : list Reply) (h : gmap loc dict) : State :=
  {| access_token := VNone; expiry_time := 0; clock := 1000;
     inbox := i; sent := []; heap := h |}.

Definition reply (status : Z) (b : option value) : Reply :=
  {| delay := 1; status_code := status; body := b |}.

(** A page of a list endpoint that carries its items and nothing else. *)
Definition page_reply (items : list value) : Reply :=
  reply 200 (Some (VDict [("orders", VList items)])).

Definition token_reply (tok : string) (expires_in : Z) : Reply :=
  reply 200 (Some (VDict [("access_token", VStr tok); ("expires_in", VInt expires_in)])).

Definition key_config : Config :=
  {| cfg_auth_type := Some "api_key"; cfg_api_key := Some (VStr "secret");
     cfg_location := None; cfg_name := None; cfg_extra_headers := None;
     cfg_token_url := None; cfg_client_id := None; cfg_client_secret := None |}.

Definition key_auth : APIKeyAuth.t :=
  APIKeyAuth.__init__ (VStr "secret") "header" "x-api-key" (Some ∅).

Definition key_client : UniversalAPIClient.t :=
  {| UniversalAPIClient.base_url := "https://x.com";
     UniversalAPIClient.auth := AuthAPIKey key_auth |}.

Definition cc_auth : ClientCredentialsAuth.t :=
  {| ClientCredentialsAuth.token_url := "https://auth.x.com/token";
     ClientCredentialsAuth.client_id := "id";
     ClientCredentialsAuth.client_secret := "hunter2" |}.

Definition cc_client : UniversalAPIClient.t :=
  {| UniversalAPIClient.base_url := "https://x.com";
     UniversalAPIClient.auth := AuthClientCredentials cc_auth |}.

(** ** Counting API calls *)

(** The API calls one [_make_request] may make: the call itself and, with
    client credentials, one retry. *)
Definition calls_per_request (a : Auth) : nat :=
  if is_client_credentials a then 2%nat else 1%nat.

(** Every run of [m] only adds to the log, and at most [c] API calls. *)
Definition calls_le (c : nat) {A} (m : M A) : Prop :=
  ∀ s, issues (λ _, True) s (m s).2 ∧ (length (api_calls s (m s).2) ≤ c)%nat.

(** The entries of the dictionary a caller passes as [params]. *)
Definition caller_params (params : option loc) (s : State) : dict :=
  match params with
  | Some l => default ∅ (heap s !! l)
  | None => ∅
  end.

(** A GET of [url] without keyword arguments. *)
Definition is_get_of (url : string) (r : Request) : Prop :=
  ∃ headers params, r = Req "GET" url headers params ∅.

Definition cookie_config : Config :=
  {| cfg_auth_type := Some "api_key"; cfg_api_key := Some (VStr "secret");
     cfg_location := Some "cookie"; cfg_name := None; cfg_extra_headers := None;
     cfg_token_url := None; cfg_client_id := None; cfg_client_secret := None |}.



(** A page that also reports the number of pages. *)
Definition page_total_reply (total_pages : Z) (items : list value) : Reply :=
  reply 200 (Some (VDict [("orders", VList items); ("total_pages", VInt total_pages)])).

(** The page at which PAGE stops when every response reports
    [total_pages]: that number, but at least 1 and at most 4. *)
Definition last_page (total_pages : Z) : Z := Z.max 1 (Z.min total_pages 4).

(** A reply with a success status whose body is the object [b], with the
    list [items] under "orders" (the empty list when there is no such
    entry). *)
Definition good_page (rep : Reply) (b : list (string * value))
    (items : list value) : Prop :=
  status_ok (status_code rep) = true ∧ body rep = Some (VDict b) ∧
  default (VList []) (assoc "orders" b) = VList items.

(** A page with a flag under "has_more". *)
Definition flag_reply (flag : value) (items : list value) : Reply :=
  reply 200 (Some (VDict [("orders", VList items); ("has_more", flag)])).

(** ** The script [main_api_key.py]

    [env] is what [dotenv_values(".env")] returned; the final [print] is
    left out. *)
Module main_api_key.

(** [env.get(key)] *)
Definition env_get (env : gmap string string) (key : string) : value :=
  match env !! key with
  | Some v => VStr v
  | None => VNone
  end.

Definition config (env : gmap string string) : Config :=
  {| cfg_auth_type := Some "api_key";
     cfg_api_key := Some (env_get env "api_key");
     cfg_location := Some "header";
     cfg_name := Some "Authorization";
     cfg_extra_headers := Some {[ "Accept" := VStr "application/json" ]};
     cfg_token_url := None; cfg_client_id := None; cfg_client_secret := None |}.

Definition main (env : gmap string string) : M (list value) :=
  let config := config env in
  let* client :=
    match env !! "base_url" with
    | Some base_url => UniversalAPIClient.__init__ base_url config
    | None => raise AttributeError          (* None.rstrip *)
    end in
  let* params := alloc {[ "max" := VInt 5 ]} in
  UniversalAPIClient.get_all client "/orders" (Some params)
    PaginationStrategy.OFFSET "max" "offset" "page" "per_page" "has_more".

End main_api_key.

(** * Properties *)

(** ** Running computations *)

Lemma bind_Ok {A B} (m : M A) (k : A → M B) s a s1 :
  m s = (Ok a, s1) → bind m k s = k a s1.
Proof. unfold bind. by intros ->. Qed.

Lemma bind_Raise {A B} (m : M A) (k : A → M B) s e s1 :
  m s = (Raise e, s1) → bind m k s = (Raise e, s1).
Proof. unfold bind. by intros ->. Qed.

Lemma bind_Ok_inv {A B} (m : M A) (k : A → M B) s b s' :
  bind m k s = (Ok b, s') →
  ∃ a s1, m s = (Ok a, s1) ∧ k a s1 = (Ok b, s').
Proof.
  unfold bind. destruct (m s) as [[a|e|] s1]; intros H; try discriminate.
  by exists a, s1.
Qed.

Lemma while_unfold {S A} fuel (body : S → M (loop_ctl S A)) st :
  while (Datatypes.S fuel) body st =
  (let* c := body st in
   match c with
   | Break r => ret r
   | Continue st' => while fuel body st'
   end).
Proof. reflexivity. Qed.

Lemma while_Break {S A} fuel (body : S → M (loop_ctl S A)) st s r s' :
  body st s = (Ok (Break r), s') →
  while (Datatypes.S fuel) body st s = (Ok r, s').
Proof. intros H. rewrite while_unfold. by rewrite (bind_Ok _ _ _ _ _ H). Qed.

Lemma while_Continue {S A} fuel (body : S → M (loop_ctl S A)) st s st' s' :
  body st s = (Ok (Continue st'), s') →
  while (Datatypes.S fuel) body st s = while fuel body st' s'.
Proof. intros H. rewrite while_unfold. by rewrite (bind_Ok _ _ _ _ _ H). Qed.

Lemma while_Raise {S A} fuel (body : S → M (loop_ctl S A)) st s e s' :
  body st s = (Raise e, s') →
  while (Datatypes.S fuel) body st s = (Raise e, s').
Proof. intros H. rewrite while_unfold. by rewrite (bind_Raise _ _ _ _ _ H). Qed.

(** ** What a computation leaves alone *)

Section Preserves.
Context (R : relation State) `{!PreOrder R}.

Lemma preserves_ret {A} (a : A) : preserves R (ret a).
Proof. intros s. simpl. reflexivity. Qed.

Lemma preserves_raise {A} e : preserves R (@raise A e).
Proof. intros s. simpl. reflexivity. Qed.

Lemma preserves_out_of_fuel {A} : preserves R (@out_of_fuel A).
Proof. intros s. simpl. reflexivity. Qed.

Lemma preserves_gets {A} (f : State → A) : preserves R (gets f).
Proof. intros s. simpl. reflexivity. Qed.

Lemma preserves_bind {A B} (m : M A) (k : A → M B) :
  preserves R m → (∀ a, preserves R (k a)) → preserves R (bind m k).
Proof.
  intros Hm Hk s. unfold bind. specialize (Hm s).
  destruct (m s) as [[a|e|] s1]; simpl in *; try done.
  etrans; [exact Hm|]. apply Hk.
Qed.

Lemma preserves_while {S A} (body : S → M (loop_ctl S A)) fuel :
  (∀ st, preserves R (body st)) → ∀ st, preserves R (while fuel body st).
Proof.
  intros Hb. induction fuel as [|fuel IH]; intros st.
  - apply preserves_out_of_fuel.
  - rewrite while_unfold. apply preserves_bind; [apply Hb|].
    intros [st'|r]; [apply IH | apply preserves_ret].
Qed.

End Preserves.

#[local] Instance same_heap_po : PreOrder same_heap.
Proof. split; [done|]. intros x y z. unfold same_heap. congruence. Qed.

#[local] Instance frame_po l : PreOrder (frame l).
Proof. split; [done|]. intros x y z. unfold frame. congruence. Qed.

#[local] Instance inbox_le_po : PreOrder inbox_le.
Proof.
  split; [by intros ?; unfold inbox_le|].
  intros x y z. unfold inbox_le. lia.
Qed.

#[local] Instance issues_po Φ : PreOrder (issues Φ).
Proof.
  split.
  - intros x. exists []. by rewrite app_nil_r.
  - intros x y z (n1 & H1 & F1) (n2 & H2 & F2). exists (n1 ++ n2).
    split; [by rewrite H2, H1, app_assoc|]. by apply Forall_app.
Qed.

Lemma same_heap_frame {A} (m : M A) l :
  preserves same_heap m → preserves (frame l) m.
Proof. intros H s. unfold frame. by rewrite (H s). Qed.

Lemma issues_issued Φ s s' :
  issues Φ s s' → sent s' = sent s ++ issued s s' ∧ Forall Φ (issued s s').
Proof.
  intros (new & H & F). unfold issued. rewrite H, drop_app_length. done.
Qed.

Lemma issued_app Φ Ψ s s1 s2 :
  issues Φ s s1 → issues Ψ s1 s2 → issued s s2 = issued s s1 ++ issued s1 s2.
Proof.
  intros (n1 & H1 & _) (n2 & H2 & _). unfold issued.
  rewrite H2, drop_app_length, H1, <-app_assoc, !drop_app_length. done.
Qed.

Lemma issued_same s s' : sent s' = sent s → issued s s' = [].
Proof. intros H. unfold issued. rewrite H. apply drop_all. Qed.

Create HintDb pres discriminated.

Ltac pres :=
  repeat (intros; first
    [ solve [auto with pres]
    | apply preserves_ret; apply _
    | apply preserves_raise; apply _
    | apply preserves_out_of_fuel; apply _
    | apply preserves_gets; apply _
    | apply preserves_bind; [apply _ | | ]
    | apply preserves_while; [apply _ | ]
    | match goal with
      | |- preserves _ (if ?b then _ else _) => destruct b
      | |- preserves _ (match ?x with _ => _ end) => destruct x
      end ]).

Ltac prim :=
  let s := fresh "s" in
  intros s; unfold same_heap, frame, inbox_le; simpl;
  first [reflexivity | lia | done | by (exists []; rewrite app_nil_r)].

(** The primitives, relation by relation. *)

Lemma exchange_same_heap r : preserves same_heap (exchange r).
Proof. intros s. unfold exchange. destruct (inbox s); by unfold same_heap. Qed.

Lemma exchange_inbox_le r : preserves inbox_le (exchange r).
Proof.
  intros s. unfold exchange, inbox_le.
  destruct (inbox s) eqn:E; simpl; rewrite ?E; simpl; lia.
Qed.

Lemma exchange_issues (Φ : Request → Prop) r : Φ r → preserves (issues Φ) (exchange r).
Proof.
  intros Hr s. exists [r]. split; [|by constructor].
  unfold exchange. by destruct (inbox s).
Qed.

Lemma set_token_same_heap v : preserves same_heap (modify (set_access_token v)).
Proof. prim. Qed.
Lemma set_token_inbox_le v : preserves inbox_le (modify (set_access_token v)).
Proof. prim. Qed.
Lemma set_token_issues Φ v : preserves (issues Φ) (modify (set_access_token v)).
Proof. prim. Qed.
Lemma set_expiry_same_heap v : preserves same_heap (modify (set_expiry_time v)).
Proof. prim. Qed.
Lemma set_expiry_inbox_le v : preserves inbox_le (modify (set_expiry_time v)).
Proof. prim. Qed.
Lemma set_expiry_issues Φ v : preserves (issues Φ) (modify (set_expiry_time v)).
Proof. prim. Qed.
Lemma alloc_inbox_le d : preserves inbox_le (alloc d).
Proof. prim. Qed.
Lemma alloc_issues Φ d : preserves (issues Φ) (alloc d).
Proof. prim. Qed.
Lemma store_inbox_le l k v : preserves inbox_le (store l k v).
Proof. prim. Qed.
Lemma store_issues Φ l k v : preserves (issues Φ) (store l k v).
Proof. prim. Qed.
Lemma store_frame l l' k v : l ≠ l' → preserves (frame l') (store l k v).
Proof.
  intros Hne s. unfold frame, store, modify. simpl. by rewrite lookup_insert_ne.
Qed.

#[local] Hint Resolve exchange_same_heap exchange_inbox_le exchange_issues
  set_token_same_heap set_token_inbox_le set_token_issues
  set_expiry_same_heap set_expiry_inbox_le set_expiry_issues
  alloc_inbox_le alloc_issues store_inbox_le store_issues store_frame : pres.

#[local] Hint Extern 1 (preserves _ (py_get _ _ _)) => (unfold py_get; pres) : pres.
#[local] Hint Extern 1 (preserves _ (py_len _)) => (unfold py_len; pres) : pres.
#[local] Hint Extern 1 (preserves _ (py_iter _)) => (unfold py_iter; pres) : pres.
#[local] Hint Extern 1 (preserves _ (py_add _ _)) => (unfold py_add; pres) : pres.
#[local] Hint Extern 1 (preserves _ (py_ge _ _)) => (unfold py_ge; pres) : pres.
#[local] Hint Extern 1 (preserves _ (subscript _ _)) => (unfold subscript; pres) : pres.
#[local] Hint Extern 1 (preserves _ (json _)) => (unfold json; pres) : pres.
#[local] Hint Extern 1 (preserves _ (raise_for_status _)) =>
  (unfold raise_for_status; pres) : pres.
#[local] Hint Extern 1 (preserves _ (deref _)) => (unfold deref; pres) : pres.
#[local] Hint Extern 1 (preserves _ time_time) => (unfold time_time; pres) : pres.

(** The methods of the module preserve whatever the exchanges they make
    and the updates of the token preserve. *)
Section Structure.
Context (R : relation State) `{!PreOrder R}.
Context (allowed : Request → Prop).
Context (Hx : ∀ r, allowed r → preserves R (exchange r)).
Context (Hpost : ∀ url data auth, allowed (Post url data auth)).
Context (Htok : ∀ v, preserves R (modify (set_access_token v))).
Context (Hexp : ∀ v, preserves R (modify (set_expiry_time v))).

Local Hint Resolve Hx Hpost Htok Hexp : pres.

Lemma authenticate_preserves c :
  preserves R (ClientCredentialsAuth._authenticate c).
Proof. unfold ClientCredentialsAuth._authenticate, requests_post. pres. Qed.

Local Hint Resolve authenticate_preserves : pres.

Lemma auth_get_auth_data_preserves a : preserves R (auth_get_auth_data a).
Proof.
  destruct a as [k|c]; simpl.
  - unfold APIKeyAuth.get_auth_data. pres.
  - unfold ClientCredentialsAuth.get_auth_data. pres.
Qed.

Lemma auth_force_refresh_preserves a : preserves R (auth_force_refresh a).
Proof.
  destruct a as [k|c]; simpl; [pres|].
  unfold ClientCredentialsAuth.force_refresh. pres.
Qed.

Local Hint Resolve auth_get_auth_data_preserves auth_force_refresh_preserves : pres.

Lemma make_request_preserves self method endpoint params kwargs :
  (∀ headers final_params,
     allowed (Req method (UniversalAPIClient.request_url self endpoint)
                headers final_params kwargs)) →
  preserves R (UniversalAPIClient._make_request self method endpoint params kwargs).
Proof.
  intros Hreq.
  unfold UniversalAPIClient._make_request, requests_request. cbv zeta. pres.
Qed.

Lemma get_preserves self endpoint params :
  (∀ headers final_params,
     allowed (Req "GET" (UniversalAPIClient.request_url self endpoint)
                headers final_params ∅)) →
  preserves R (UniversalAPIClient.get self endpoint params).
Proof.
  intros Hreq. unfold UniversalAPIClient.get.
  apply preserves_bind; [apply _|by apply make_request_preserves|]. pres.
Qed.

End Structure.

Ltac structure lem :=
  apply (lem _ _ (λ _, True)); auto with pres.

Lemma auth_get_auth_data_same_heap a : preserves same_heap (auth_get_auth_data a).
Proof. structure auth_get_auth_data_preserves. Qed.

Lemma auth_get_auth_data_inbox_le a : preserves inbox_le (auth_get_auth_data a).
Proof. structure auth_get_auth_data_preserves. Qed.

Lemma auth_force_refresh_inbox_le a : preserves inbox_le (auth_force_refresh a).
Proof. structure auth_force_refresh_preserves. Qed.

(** Obtaining or refreshing the auth data sends token requests only. *)
Lemma auth_get_auth_data_issues a :
  preserves (issues (λ r, is_post r = true)) (auth_get_auth_data a).
Proof.
  apply (auth_get_auth_data_preserves _ (λ r, is_post r = true)); auto with pres.
Qed.

Lemma auth_force_refresh_issues a :
  preserves (issues (λ r, is_post r = true)) (auth_force_refresh a).
Proof.
  apply (auth_force_refresh_preserves _ (λ r, is_post r = true)); auto with pres.
Qed.

Lemma make_request_same_heap self method endpoint params kwargs :
  preserves same_heap
    (UniversalAPIClient._make_request self method endpoint params kwargs).
Proof. structure make_request_preserves. Qed.

Lemma make_request_inbox_le self method endpoint params kwargs :
  preserves inbox_le
    (UniversalAPIClient._make_request self method endpoint params kwargs).
Proof. structure make_request_preserves. Qed.

Lemma get_same_heap self endpoint params :
  preserves same_heap (UniversalAPIClient.get self endpoint params).
Proof. structure get_preserves. Qed.

Lemma get_inbox_le self endpoint params :
  preserves inbox_le (UniversalAPIClient.get self endpoint params).
Proof. structure get_preserves. Qed.

Lemma get_issues self endpoint params :
  preserves (issues (λ _, True)) (UniversalAPIClient.get self endpoint params).
Proof. structure get_preserves. Qed.

Lemma get_frame self endpoint params l :
  preserves (frame l) (UniversalAPIClient.get self endpoint params).
Proof. apply same_heap_frame, get_same_heap. Qed.

#[local] Hint Resolve auth_get_auth_data_same_heap auth_get_auth_data_inbox_le
  auth_force_refresh_inbox_le make_request_same_heap make_request_inbox_le
  get_same_heap get_inbox_le get_issues get_frame : pres.

Section Bodies.
Context (R : relation State) `{!PreOrder R}.
Context (self : UniversalAPIClient.t) (endpoint : string) (params : loc).
Context (Hget : ∀ p, preserves R (UniversalAPIClient.get self endpoint p)).
Context (Hstore : ∀ k v, preserves R (store params k v)).

Local Hint Resolve Hget Hstore : pres.

Lemma offset_body_preserves offset_field limit st :
  preserves R (UniversalAPIClient.offset_body self endpoint params offset_field limit st).
Proof.
  destruct st as [[offset total_count] results].
  unfold UniversalAPIClient.offset_body. pres.
Qed.

Lemma page_body_preserves page_field st :
  preserves R (UniversalAPIClient.page_body self endpoint params page_field st).
Proof.
  destruct st as [page results]. unfold UniversalAPIClient.page_body. pres.
Qed.

Lemma has_more_body_preserves has_more_field st :
  preserves R (UniversalAPIClient.has_more_body self endpoint params has_more_field st).
Proof.
  destruct st as [[has_more iteration] results].
  unfold UniversalAPIClient.has_more_body. pres.
Qed.

End Bodies.

(** ** Replies consumed, and why the loops are never cut short *)

Lemma safe_ret {A} (a : A) : safe (ret a).
Proof. by intros s. Qed.
Lemma safe_raise {A} e : safe (@raise A e).
Proof. by intros s. Qed.
Lemma safe_gets {A} (f : State → A) : safe (gets f).
Proof. by intros s. Qed.
Lemma safe_modify f : safe (modify f).
Proof. by intros s. Qed.
Lemma safe_exchange r : safe (exchange r).
Proof. intros s. unfold exchange. by destruct (inbox s). Qed.
Lemma safe_alloc d : safe (alloc d).
Proof. by intros s. Qed.
Lemma safe_bind {A B} (m : M A) (k : A → M B) :
  safe m → (∀ a, safe (k a)) → safe (bind m k).
Proof.
  intros Hm Hk s. unfold bind. specialize (Hm s).
  destruct (m s) as [[a|e|] s1]; simpl in *; try done. apply Hk.
Qed.

Create HintDb safe discriminated.
#[local] Hint Resolve safe_ret safe_raise safe_gets safe_modify safe_exchange
  safe_alloc : safe.

Ltac safe_tac :=
  repeat (intros; first
    [ solve [auto with safe]
    | apply safe_bind
    | match goal with
      | |- safe (if ?b then _ else _) => destruct b
      | |- safe (match ?x with _ => _ end) => destruct x
      end ]).

Lemma safe_authenticate c : safe (ClientCredentialsAuth._authenticate c).
Proof.
  unfold ClientCredentialsAuth._authenticate, requests_post, raise_for_status,
    json, subscript, py_get, py_add, time_time.
  safe_tac.
Qed.

#[local] Hint Resolve safe_authenticate : safe.

Lemma safe_auth_get_auth_data a : safe (auth_get_auth_data a).
Proof.
  destruct a as [k|c]; simpl.
  - unfold APIKeyAuth.get_auth_data. safe_tac.
  - unfold ClientCredentialsAuth.get_auth_data. safe_tac.
Qed.

Lemma safe_auth_force_refresh a : safe (auth_force_refresh a).
Proof.
  destruct a as [k|c]; simpl; [safe_tac|].
  unfold ClientCredentialsAuth.force_refresh. safe_tac.
Qed.

#[local] Hint Resolve safe_auth_get_auth_data safe_auth_force_refresh : safe.

Lemma safe_make_request self method endpoint params kwargs :
  safe (UniversalAPIClient._make_request self method endpoint params kwargs).
Proof.
  unfold UniversalAPIClient._make_request, requests_request, raise_for_status, deref.
  safe_tac.
Qed.

#[local] Hint Resolve safe_make_request : safe.

Lemma safe_get self endpoint params :
  safe (UniversalAPIClient.get self endpoint params).
Proof. unfold UniversalAPIClient.get, json. safe_tac. Qed.

#[local] Hint Resolve safe_get : safe.

Lemma safe_offset_body self endpoint params offset_field limit st :
  safe (UniversalAPIClient.offset_body self endpoint params offset_field limit st).
Proof.
  destruct st as [[offset total_count] results].
  unfold UniversalAPIClient.offset_body, store, py_get, py_len, py_iter,
    py_add, py_ge.
  safe_tac.
Qed.

Lemma safe_page_body self endpoint params page_field st :
  safe (UniversalAPIClient.page_body self endpoint params page_field st).
Proof.
  destruct st as [page results].
  unfold UniversalAPIClient.page_body, store, py_get, py_len, py_iter, py_ge.
  safe_tac.
Qed.

Lemma safe_has_more_body self endpoint params has_more_field st :
  safe (UniversalAPIClient.has_more_body self endpoint params has_more_field st).
Proof.
  destruct st as [[has_more iteration] results].
  unfold UniversalAPIClient.has_more_body, py_get, py_len, py_iter.
  safe_tac.
Qed.

Lemma consumes_raise {A} (P : A → Prop) e : consumes P (raise e).
Proof. intros s a s' H. discriminate. Qed.

Lemma consumes_ret {A} (P : A → Prop) a : ¬ P a → consumes P (ret a).
Proof. intros Hn s a' s' [= <- <-] HP. done. Qed.

Lemma consumes_exchange P r : consumes P (exchange r).
Proof.
  intros s a s'. unfold exchange.
  destruct (inbox s) as [|rep rest] eqn:E; intros [= <- <-] _.
  simpl. rewrite ?E. simpl. lia.
Qed.

Lemma consumes_bind_l {A B} (P : B → Prop) (m : M A) (k : A → M B) :
  consumes (λ _, True) m → (∀ a, preserves inbox_le (k a)) →
  consumes P (bind m k).
Proof.
  intros Hm Hk s b s' H _.
  apply bind_Ok_inv in H as (a & s1 & Hma & Hka).
  specialize (Hm _ _ _ Hma I). specialize (Hk a s1). rewrite Hka in Hk.
  unfold inbox_le in Hk. simpl in Hk. lia.
Qed.

Lemma consumes_bind_r {A B} (P : B → Prop) (m : M A) (k : A → M B) :
  preserves inbox_le m → (∀ a, consumes P (k a)) →
  consumes P (bind m k).
Proof.
  intros Hm Hk s b s' H HP.
  apply bind_Ok_inv in H as (a & s1 & Hma & Hka).
  specialize (Hk _ _ _ _ Hka HP). specialize (Hm s). rewrite Hma in Hm.
  unfold inbox_le in Hm. simpl in Hm. lia.
Qed.


Lemma requests_request_inbox_le method url headers params kwargs :
  preserves inbox_le (requests_request method url headers params kwargs).
Proof. apply exchange_inbox_le. Qed.

#[local] Hint Resolve requests_request_inbox_le : pres.

Lemma consumes_make_request self method endpoint params kwargs :
  consumes (λ _, True)
    (UniversalAPIClient._make_request self method endpoint params kwargs).
Proof.
  unfold UniversalAPIClient._make_request.
  apply consumes_bind_r; [auto with pres|]. intros auth_data.
  apply consumes_bind_r; [pres|]. intros final_params.
  apply consumes_bind_l; [apply consumes_exchange|]. intros response. pres.
Qed.

Lemma consumes_get self endpoint params :
  consumes (λ _, True) (UniversalAPIClient.get self endpoint params).
Proof.
  unfold UniversalAPIClient.get.
  apply consumes_bind_l; [apply consumes_make_request|]. pres.
Qed.

Lemma consumes_offset_body self endpoint params offset_field limit st :
  consumes is_continue
    (UniversalAPIClient.offset_body self endpoint params offset_field limit st).
Proof.
  destruct st as [[offset total_count] results].
  unfold UniversalAPIClient.offset_body.
  apply consumes_bind_r; [pres|]. intros _.
  apply consumes_bind_l; [apply consumes_get|].
  pres.
Qed.

Lemma consumes_page_body self endpoint params page_field st :
  consumes is_continue
    (UniversalAPIClient.page_body self endpoint params page_field st).
Proof.
  destruct st as [page results]. unfold UniversalAPIClient.page_body.
  apply consumes_bind_r; [pres|]. intros _.
  apply consumes_bind_l; [apply consumes_get|].
  pres.
Qed.

Lemma consumes_has_more_body self endpoint params has_more_field st :
  consumes is_continue
    (UniversalAPIClient.has_more_body self endpoint params has_more_field st).
Proof.
  destruct st as [[has_more iteration] results].
  unfold UniversalAPIClient.has_more_body.
  destruct (negb (truthy has_more)).
  - apply consumes_ret. by intros [].
  - apply consumes_bind_l; [apply consumes_get|]. pres.
Qed.

(** With more fuel than replies left, a loop whose every continuing
    iteration takes a reply never runs out of fuel. *)
Lemma while_safe {S A} (body : S → M (loop_ctl S A)) :
  (∀ st, safe (body st)) → (∀ st, consumes is_continue (body st)) →
  ∀ fuel st s, (length (inbox s) < fuel)%nat →
    (while fuel body st s).1 ≠ OutOfFuel.
Proof.
  intros Hsafe Hcons. induction fuel as [|fuel IH]; intros st s Hlt; [lia|].
  rewrite while_unfold. unfold bind.
  specialize (Hsafe st s). specialize (Hcons st s).
  destruct (body st s) as [[[st'|r]|e|] s1]; simpl in *; try done.
  apply IH. specialize (Hcons _ _ eq_refl I). lia.
Qed.

(** The same loop, followed along [k] continuing iterations. *)
Lemma while_reaches {S A} (body : S → M (loop_ctl S A)) st s k st' s' :
  reaches body st s k st' s' →
  ∀ fuel, while (k + fuel) body st s = while fuel body st' s'.
Proof.
  induction 1 as [|st s st1 s1 k st' s' Hb _ IH]; intros fuel; [done|].
  simpl. change (while (Datatypes.S (k + fuel)) body st s =
                 while fuel body st' s').
  rewrite (while_Continue _ _ _ _ _ _ Hb). apply IH.
Qed.

Lemma reaches_inbox {S A} (body : S → M (loop_ctl S A)) st s k st' s' :
  (∀ st, consumes is_continue (body st)) →
  reaches body st s k st' s' →
  (k + length (inbox s') ≤ length (inbox s))%nat.
Proof.
  intros Hcons. induction 1 as [|st s st1 s1 k st' s' Hb _ IH]; [simpl; lia|].
  specialize (Hcons _ _ _ _ Hb I). lia.
Qed.

Lemma copy_params_run params s :
  let d : dict := match params with
                  | Some l => default ∅ (heap s !! l)
                  | None => ∅
                  end in
  let p := fresh (dom (heap s)) in
  UniversalAPIClient.copy_params params s = (Ok p, set_heap (<[p := d]> (heap s)) s).
Proof.
  destruct params as [l|]; simpl; [|done].
  unfold bind, deref, gets, dict_truthy, alloc.
  case_bool_decide as Hd; simpl; [|done]. by rewrite Hd.
Qed.

(** [get_all] always comes back: the fuel it gives its loops is enough. *)
Theorem get_all_terminates self endpoint params strategy
    limit_field offset_field page_field per_page_field has_more_field s :
  (UniversalAPIClient.get_all self endpoint params strategy limit_field
     offset_field page_field per_page_field has_more_field s).1 ≠ OutOfFuel.
Proof.
  unfold UniversalAPIClient.get_all.
  rewrite (bind_Ok _ _ _ _ _ (copy_params_run params s)).
  set (p := fresh (dom (heap s))). set (s1 := set_heap _ s).
  unfold gets at 1. unfold bind at 1.
  repeat case_match; subst; try done.
  - unfold deref, gets, bind at 1.
    apply while_safe; [apply safe_offset_body|apply consumes_offset_body|lia].
  - unfold deref, gets, bind at 1.
    apply while_safe; [apply safe_page_body|apply consumes_page_body|lia].
  - apply while_safe; [apply safe_has_more_body|apply consumes_has_more_body|lia].
Qed.

(** ** URL construction *)

Lemma append_String a s1 s2 : String a s1 +:+ s2 = String a (s1 +:+ s2).
Proof. reflexivity. Qed.

Lemma lstrip_slashes s :
  ∃ m, s = slashes m +:+ lstrip "/" s ∧ starts_with "/" (lstrip "/" s) = false.
Proof.
  induction s as [|a s IH]; [by exists 0%nat|].
  simpl. destruct (Ascii.eqb a "/") eqn:E.
  - apply Ascii.eqb_eq in E as ->. destruct IH as (m & Hs & Hst).
    exists (S m). split; [|done]. simpl slashes. rewrite append_String. congruence.
  - exists 0%nat. simpl. by rewrite E.
Qed.

Lemma rstrip_slashes s :
  ∃ n, s = rstrip "/" s +:+ slashes n ∧ ends_with "/" (rstrip "/" s) = false.
Proof.
  induction s as [|a s IH]; [by exists 0%nat|].
  destruct IH as (n & Hs & Hend). simpl.
  destruct (rstrip "/" s) as [|b r] eqn:Er.
  - change (s = slashes n) in Hs. destruct (Ascii.eqb a "/") eqn:E.
    + apply Ascii.eqb_eq in E as ->. exists (S n). split; [|done].
      simpl slashes. change (String "/" s = String "/" (slashes n)). congruence.
    + exists n. split; [change (String a s = String a (slashes n)); congruence|].
      simpl. by rewrite E.
  - exists n. split; [rewrite append_String; congruence|]. exact Hend.
Qed.

Lemma init_base_url base_url cfg self s s' :
  UniversalAPIClient.__init__ base_url cfg s = (Ok self, s') →
  UniversalAPIClient.base_url self = rstrip "/" base_url.
Proof.
  unfold UniversalAPIClient.__init__. intros H.
  apply bind_Ok_inv in H as (a & s1 & _ & H). by injection H as <- _.
Qed.


(** Whatever [_make_request] sends is a token request or a call to
    [request_url] with the method and keyword arguments it was given. *)
Lemma make_request_issues self method endpoint params kwargs :
  preserves
    (issues (λ r, is_post r = true ∨
                  ∃ headers final_params,
                    r = Req method (UniversalAPIClient.request_url self endpoint)
                          headers final_params kwargs))
    (UniversalAPIClient._make_request self method endpoint params kwargs).
Proof.
  eapply make_request_preserves; [apply _|apply exchange_issues| | | |].
  - intros. by left.
  - apply set_token_issues.
  - apply set_expiry_issues.
  - intros. right. eauto.
Qed.


(** ** API keys *)

(** C8, amended.  With location "header" the headers hold every entry of
    [extra_headers], and the key under [name] unless [extra_headers] has an
    entry of that name; the query parameters are empty.  With location
    "query" the key is the only query parameter and the headers are
    [extra_headers].  Any other location fails with the source's
    [ValueError], the spec's ConfigurationError, when [get_auth_data] is
    called. *)
Theorem C8_api_key_placement (self : APIKeyAuth.t) s :
  (APIKeyAuth.location self = "header" →
   ∃ headers,
     APIKeyAuth.get_auth_data self s
       = (Ok {| auth_headers := headers; auth_params := ∅ |}, s) ∧
     (∀ k v, APIKeyAuth.extra_headers self !! k = Some v → headers !! k = Some v) ∧
     (APIKeyAuth.extra_headers self !! APIKeyAuth.name self = None →
      headers !! APIKeyAuth.name self = Some (APIKeyAuth.api_key self)) ∧
     (∀ k, k ≠ APIKeyAuth.name self →
           headers !! k = APIKeyAuth.extra_headers self !! k)) ∧
  (APIKeyAuth.location self = "query" →
   APIKeyAuth.get_auth_data self s
     = (Ok {| auth_headers := APIKeyAuth.extra_headers self;
              auth_params := {[ APIKeyAuth.name self := APIKeyAuth.api_key self ]} |},
        s)) ∧
  (APIKeyAuth.location self ≠ "header" → APIKeyAuth.location self ≠ "query" →
   ∃ e, APIKeyAuth.get_auth_data self s = (Raise e, s) ∧ ConfigurationError e).
Proof.
  unfold APIKeyAuth.get_auth_data. repeat split.
  - intros ->. simpl. eexists. split; [reflexivity|]. repeat split.
    + intros k v Hk. by apply lookup_union_Some_l.
    + intros Hn. rewrite lookup_union_r by done. apply lookup_singleton_eq.
    + intros k Hk. rewrite lookup_union_l; [done|]. by apply lookup_singleton_ne.
  - by intros ->.
  - intros Hh Hq.
    apply String.eqb_neq in Hh, Hq. rewrite Hh, Hq.
    eexists. split; [reflexivity|]. by eexists.
Qed.

(** C8 as stated fails when [extra_headers] has an entry under the name of
    the key: [headers.update(extra_headers)] replaces the key. *)
Lemma C8_counterexample :
  let self := APIKeyAuth.__init__ (VStr "secret") "header" "x-api-key"
                (Some {[ "x-api-key" := VStr "other" ]}) in
  ∃ ad, APIKeyAuth.get_auth_data self (world [] ∅) = (Ok ad, world [] ∅) ∧
        auth_headers ad !! APIKeyAuth.name self = Some (VStr "other") ∧
        auth_headers ad !! APIKeyAuth.name self ≠ Some (APIKeyAuth.api_key self).
Proof.
  eexists. split; [reflexivity|]. split; [by vm_compute|]. by vm_compute.
Qed.

Lemma C8_api_key_placement_witness :
  (∃ headers,
     APIKeyAuth.get_auth_data key_auth (world [] ∅)
       = (Ok {| auth_headers := headers; auth_params := ∅ |}, world [] ∅) ∧
     headers !! "x-api-key" = Some (VStr "secret")) ∧
  (∃ e, APIKeyAuth.get_auth_data
          (APIKeyAuth.__init__ (VStr "secret") "cookie" "x-api-key" None)
          (world [] ∅) = (Raise e, world [] ∅) ∧ ConfigurationError e).
Proof.
  split.
  - destruct (C8_api_key_placement key_auth (world [] ∅)) as (Hh & _ & _).
    destruct (Hh eq_refl) as (headers & Hrun & _ & Hkey & _).
    exists headers. split; [exact Hrun|]. apply Hkey. reflexivity.
  - destruct (C8_api_key_placement
                (APIKeyAuth.__init__ (VStr "secret") "cookie" "x-api-key" None)
                (world [] ∅)) as (_ & _ & He).
    apply He; simpl; discriminate.
Defined.


(** ** Strategy tags *)

(** The dispatch on the auth type, for comparison with the dispatch of
    [get_all] on the strategy: an unknown tag raises. *)
Lemma create_auth_unsupported cfg s :
  cfg_auth_type cfg ≠ Some "api_key" →
  cfg_auth_type cfg ≠ Some "client_credentials" →
  UniversalAPIClient._create_auth cfg s
  = (Raise (ValueError "Unsupported auth type"), s).
Proof.
  intros H1 H2. unfold UniversalAPIClient._create_auth. cbv zeta.
  by rewrite !bool_decide_eq_false_2.
Qed.

(** C1 fails on the code: a strategy tag that is none of the three makes
    [get_all] return the empty list without sending anything, where the two
    other dispatches of the module raise [ValueError]. *)
Theorem C1_unknown_strategy_returns_empty self endpoint params strategy
    limit_field offset_field page_field per_page_field has_more_field s :
  strategy ≠ PaginationStrategy.OFFSET →
  strategy ≠ PaginationStrategy.PAGE →
  strategy ≠ PaginationStrategy.HAS_MORE →
  let out := UniversalAPIClient.get_all self endpoint params strategy limit_field
               offset_field page_field per_page_field has_more_field s in
  out.1 = Ok [] ∧ sent out.2 = sent s ∧ inbox out.2 = inbox s.
Proof.
  intros Ho Hp Hh. apply String.eqb_neq in Ho, Hp, Hh.
  unfold UniversalAPIClient.get_all. cbv zeta.
  rewrite (bind_Ok _ _ _ _ _ (copy_params_run params s)).
  unfold gets at 1. unfold bind at 1. by rewrite Ho, Hp, Hh.
Qed.

Lemma C1_unknown_strategy_returns_empty_witness :
  let out := UniversalAPIClient.get_all key_client "/orders" None "cursor"
               "limit" "offset" "page" "per_page" "has_more"
               (world [page_reply [VInt 1]] ∅) in
  out.1 = Ok [] ∧ sent out.2 = [] ∧ inbox out.2 = [page_reply [VInt 1]].
Proof.
  apply (C1_unknown_strategy_returns_empty key_client "/orders" None "cursor"
           "limit" "offset" "page" "per_page" "has_more"
           (world [page_reply [VInt 1]] ∅)); discriminate.
Defined.

(** ** Client credentials *)

Lemma exchange_run r s rep rest :
  inbox s = rep :: rest → exchange r s = (Ok rep, delivered r rep rest s).
Proof. intros H. unfold exchange. by rewrite H. Qed.

Lemma raise_for_status_ok rep s :
  status_ok (status_code rep) = true → raise_for_status rep s = (Ok tt, s).
Proof.
  unfold status_ok, raise_for_status. intros H%negb_true_iff. by rewrite H.
Qed.


(** [_authenticate] when the token endpoint answers with a success status
    and a JSON object. *)
Lemma authenticate_run self s rep rest d :
  inbox s = rep :: rest →
  status_ok (status_code rep) = true →
  body rep = Some (VDict d) →
  let s1 := delivered (token_request self) rep rest s in
  ClientCredentialsAuth._authenticate self s =
  match assoc "access_token" d with
  | None => (Raise (KeyError "access_token"), s1)
  | Some tok =>
      match as_int (default (VInt 3600) (assoc "expires_in" d)) with
      | Some n => (Ok tt, set_expiry_time (clock s1 + n) (set_access_token tok s1))
      | None => (Raise TypeError, set_access_token tok s1)
      end
  end.
Proof.
  intros Hin Hst Hbody s1.
  unfold ClientCredentialsAuth._authenticate, requests_post.
  rewrite (bind_Ok _ _ _ _ _ (exchange_run _ _ _ _ Hin)). fold (token_request self). fold s1.
  rewrite (bind_Ok _ _ _ _ _ (raise_for_status_ok _ _ Hst)).
  unfold json. rewrite Hbody. unfold bind at 1, ret at 1.
  unfold subscript. destruct (assoc "access_token" d) as [tok|]; [|done].
  unfold bind, ret, modify, py_get, py_add, time_time, gets. simpl.
  destruct (assoc "expires_in" d) as [v|]; simpl; [|done].
  by destruct (as_int v).
Qed.



#[local] Instance same_sent_po : PreOrder same_sent.
Proof. split; [done|]. intros x y z. unfold same_sent. congruence. Qed.

Lemma set_token_same_sent v : preserves same_sent (modify (set_access_token v)).
Proof. by intros s. Qed.

Lemma set_expiry_same_sent v : preserves same_sent (modify (set_expiry_time v)).
Proof. by intros s. Qed.

#[local] Hint Resolve set_token_same_sent set_expiry_same_sent : pres.

Lemma exchange_sent r s : sent (exchange r s).2 = sent s ++ [r].
Proof. unfold exchange. by destruct (inbox s). Qed.

Lemma issued_snoc s s' l : sent s' = sent s ++ l → issued s s' = l.
Proof. intros H. unfold issued. by rewrite H, drop_app_length. Qed.

(** [_authenticate] sends the token request and nothing else, whatever
    comes back. *)
Lemma authenticate_sent self s :
  sent (ClientCredentialsAuth._authenticate self s).2 = sent s ++ [token_request self].
Proof.
  unfold ClientCredentialsAuth._authenticate, requests_post.
  fold (token_request self). unfold bind at 1.
  pose proof (exchange_sent (token_request self) s) as Hx.
  destruct (exchange (token_request self) s) as [[rep|e|] s1]; simpl in *; try done.
  rewrite <-Hx.
  match goal with |- sent (?m s1).2 = _ => assert (preserves same_sent m) as Hp by pres end.
  apply Hp.
Qed.

Lemma get_auth_data_cached self s :
  ClientCredentialsAuth.needs_token s = false →
  ClientCredentialsAuth.get_auth_data self s = (Ok (bearer (access_token s)), s).
Proof.
  intros H. unfold ClientCredentialsAuth.get_auth_data, bind, gets. by rewrite H.
Qed.

Lemma get_auth_data_stale self s :
  ClientCredentialsAuth.needs_token s = true →
  ClientCredentialsAuth.get_auth_data self s =
  match ClientCredentialsAuth._authenticate self s with
  | (Ok _, s') => (Ok (bearer (access_token s')), s')
  | (Raise e, s') => (Raise e, s')
  | (OutOfFuel, s') => (OutOfFuel, s')
  end.
Proof.
  intros H. unfold ClientCredentialsAuth.get_auth_data, gets.
  unfold bind at 1. rewrite H. unfold bind.
  by destruct (ClientCredentialsAuth._authenticate self s) as [[[]|e|] s'].
Qed.


Lemma get_auth_data_returns self s ad :
  (ClientCredentialsAuth.get_auth_data self s).1 = Ok ad →
  ad = bearer (access_token (ClientCredentialsAuth.get_auth_data self s).2).
Proof.
  destruct (ClientCredentialsAuth.needs_token s) eqn:E.
  - rewrite (get_auth_data_stale _ _ E).
    destruct (ClientCredentialsAuth._authenticate self s) as [[[]|e|] s'];
      simpl; congruence.
  - rewrite (get_auth_data_cached _ _ E). simpl. congruence.
Qed.




(** ** The request executor *)

Lemma api_calls_app Φ Ψ s s1 s2 :
  issues Φ s s1 → issues Ψ s1 s2 →
  api_calls s s2 = api_calls s s1 ++ api_calls s1 s2 ∧
  token_fetches s s2 = token_fetches s s1 ++ token_fetches s1 s2.
Proof.
  intros H1 H2. unfold api_calls, token_fetches.
  by rewrite (issued_app _ _ _ _ _ H1 H2), !filter_app.
Qed.

Lemma api_calls_posts s s' :
  issues (λ r, is_post r = true) s s' → api_calls s s' = [].
Proof.
  intros H. destruct (issues_issued _ _ _ H) as [_ Hall]. unfold api_calls.
  induction Hall as [|r l Hr _ IH]; [done|].
  rewrite filter_cons_False; [done|]. destruct r; simpl in *; congruence.
Qed.

Lemma api_calls_same s : api_calls s s = [] ∧ token_fetches s s = [].
Proof. unfold api_calls, token_fetches. by rewrite (issued_same s s eq_refl). Qed.

Lemma request_calls method url headers params kwargs s :
  let r := Req method url headers params kwargs in
  let s' := (requests_request method url headers params kwargs s).2 in
  api_calls s s' = [r] ∧ token_fetches s s' = [] ∧ issues (λ _, True) s s'.
Proof.
  intros r s'. subst s'. unfold requests_request. fold r.
  pose proof (exchange_sent r s) as Hs.
  unfold api_calls, token_fetches. rewrite (issued_snoc _ _ _ Hs).
  split; [by rewrite filter_cons_True|]. split; [by rewrite filter_cons_False|].
  exists [r]. split; [done|]. by constructor.
Qed.

Lemma issues_weaken (Φ Ψ : Request → Prop) s s' :
  (∀ r, Φ r → Ψ r) → issues Φ s s' → issues Ψ s s'.
Proof.
  intros HΦ (new & H & F). exists new. split; [done|].
  eapply Forall_impl; eauto.
Qed.

(** [_make_request], with the merge of the parameters spelled out. *)
Lemma make_request_unfold self method endpoint params kwargs s :
  UniversalAPIClient._make_request self method endpoint params kwargs s =
  (let url := UniversalAPIClient.request_url self endpoint in
   let* auth_data := auth_get_auth_data (UniversalAPIClient.auth self) in
   let* final_params := gets (merged_params params (auth_params auth_data)) in
   let* response :=
     requests_request method url (auth_headers auth_data) final_params kwargs in
   let* response :=
     if (status_code response =? 401)
        && is_client_credentials (UniversalAPIClient.auth self)
     then
       auth_force_refresh (UniversalAPIClient.auth self) >>
       let* auth_data := auth_get_auth_data (UniversalAPIClient.auth self) in
       requests_request method url (auth_headers auth_data) final_params kwargs
     else ret response in
   raise_for_status response >>
   ret response) s.
Proof.
  unfold UniversalAPIClient._make_request. cbv zeta.
  unfold bind at 1. symmetry. unfold bind at 1. symmetry.
  destruct (auth_get_auth_data (UniversalAPIClient.auth self) s)
    as [[auth_data|e|] s1]; [|done|done].
  assert (Hparams :
    (match params with
     | Some l => let* d := deref l in
                 if dict_truthy d then ret (d ∪ ∅) else ret (∅ : dict)
     | None => ret ∅
     end) s1
    = (Ok (match params with
           | Some l => default ∅ (heap s1 !! l)
           | None => ∅
           end), s1)).
  { destruct params as [l|]; [|done].
    unfold deref, gets, bind, dict_truthy. simpl.
    case_bool_decide as Hd; simpl; [by rewrite Hd|].
    by rewrite (right_id_L ∅ (∪)). }
  rewrite (bind_Ok _ _ _ _ _ Hparams).
  unfold gets at 1. unfold bind at 4. done.
Qed.

Lemma force_refresh_sent c s :
  sent (ClientCredentialsAuth.force_refresh c s).2 = sent s ++ [token_request c].
Proof.
  unfold ClientCredentialsAuth.force_refresh, bind, modify. simpl.
  apply (authenticate_sent c (set_expiry_time 0 (set_access_token VNone s))).
Qed.

(** The runs of [_make_request], step by step. *)
Lemma make_request_run self method endpoint params kwargs s :
  let url := UniversalAPIClient.request_url self endpoint in
  let a := UniversalAPIClient.auth self in
  let final (o : outcome Reply * State) : outcome Reply * State :=
    match o with
    | (Ok r, s') =>
        (if status_ok (status_code r) then Ok r
         else Raise (HTTPError (status_code r)), s')
    | o => o
    end in
  UniversalAPIClient._make_request self method endpoint params kwargs s =
  match auth_get_auth_data a s with
  | (Ok ad1, s1) =>
      let fp := merged_params params (auth_params ad1) s1 in
      match requests_request method url (auth_headers ad1) fp kwargs s1 with
      | (Ok r1, s2) =>
          if (status_code r1 =? 401) && is_client_credentials a then
            match auth_force_refresh a s2 with
            | (Ok _, s3) =>
                match auth_get_auth_data a s3 with
                | (Ok ad2, s4) =>
                    final (requests_request method url (auth_headers ad2) fp kwargs s4)
                | (Raise e, s4) => (Raise e, s4)
                | (OutOfFuel, s4) => (OutOfFuel, s4)
                end
            | (Raise e, s3) => (Raise e, s3)
            | (OutOfFuel, s3) => (OutOfFuel, s3)
            end
          else final (Ok r1, s2)
      | (Raise e, s2) => (Raise e, s2)
      | (OutOfFuel, s2) => (OutOfFuel, s2)
      end
  | (Raise e, s1) => (Raise e, s1)
  | (OutOfFuel, s1) => (OutOfFuel, s1)
  end.
Proof.
  intros url a final. rewrite make_request_unfold. cbv zeta. fold url a.
  assert (Hfinal : ∀ r s', (raise_for_status r >> ret r) s' = final (Ok r, s')).
  { intros r s'. unfold final, bind, raise_for_status, status_ok.
    by destruct ((400 <=? status_code r) && (status_code r <? 600)). }
  unfold bind at 1. destruct (auth_get_auth_data a s) as [[ad1|e|] s1]; [|done|done].
  unfold gets at 1. unfold bind at 1. unfold bind at 1.
  destruct (requests_request method url (auth_headers ad1)
              (merged_params params (auth_params ad1) s1) kwargs s1)
    as [[r1|e|] s2]; [|done|done].
  unfold bind at 1.
  destruct ((status_code r1 =? 401) && is_client_credentials a).
  - unfold bind at 1. destruct (auth_force_refresh a s2) as [[[]|e|] s3]; [|done|done].
    unfold bind at 1. destruct (auth_get_auth_data a s3) as [[ad2|e|] s4]; [|done|done].
    destruct (requests_request method url (auth_headers ad2)
                (merged_params params (auth_params ad1) s1) kwargs s4)
      as [[r2|e|] s5]; [|done|done].
    apply Hfinal.
  - apply Hfinal.
Qed.

Lemma run_issues {A} (Φ : Request → Prop) (m : M A) s o s' :
  preserves (issues Φ) m → m s = (o, s') → issues Φ s s'.
Proof. intros Hp Hm. specialize (Hp s). by rewrite Hm in Hp. Qed.

Lemma request_run_calls method url headers params kwargs s o s' :
  requests_request method url headers params kwargs s = (o, s') →
  api_calls s s' = [Req method url headers params kwargs] ∧
  token_fetches s s' = [] ∧ issues (λ _, True) s s'.
Proof.
  intros H. pose proof (request_calls method url headers params kwargs s) as Hc.
  simpl in Hc. by rewrite H in Hc.
Qed.

Lemma posts_run_calls {A} (m : M A) s o s' :
  preserves (issues (λ r, is_post r = true)) m → m s = (o, s') →
  api_calls s s' = [] ∧ issues (λ _, True) s s'.
Proof.
  intros Hp Hm. pose proof (run_issues _ _ _ _ _ Hp Hm) as Hi.
  split; [by apply api_calls_posts|]. by eapply issues_weaken.
Qed.

Lemma api_key_auth_data_state k s :
  (APIKeyAuth.get_auth_data k s).2 = s.
Proof.
  unfold APIKeyAuth.get_auth_data.
  by repeat (case_match; simpl).
Qed.

(** How many API calls one [_make_request] makes. *)
Lemma make_request_call_count self method endpoint params kwargs s :
  let out := UniversalAPIClient._make_request self method endpoint params kwargs s in
  (length (api_calls s out.2) ≤
   if is_client_credentials (UniversalAPIClient.auth self) then 2 else 1)%nat ∧
  (is_client_credentials (UniversalAPIClient.auth self) = false →
   token_fetches s out.2 = []).
Proof.
  cbv zeta. rewrite make_request_run. cbv zeta.
  set (a := UniversalAPIClient.auth self).
  set (url := UniversalAPIClient.request_url self endpoint).
  assert (Hkey : is_client_credentials a = false →
                 ∀ s0, (auth_get_auth_data a s0).2 = s0).
  { destruct a; [|done]. intros _ s0. apply api_key_auth_data_state. }
  destruct (auth_get_auth_data a s) as [[ad1|e|] s1] eqn:E1.
  2,3: cbn [snd]; destruct (posts_run_calls _ _ _ _ (auth_get_auth_data_issues a) E1) as [-> _];
       simpl; (split; [destruct (is_client_credentials a); lia|]);
       intros Hk; specialize (Hkey Hk s); rewrite E1 in Hkey; simpl in Hkey; subst s1;
       apply api_calls_same.
  destruct (posts_run_calls _ _ _ _ (auth_get_auth_data_issues a) E1) as [C1 I1].
  cbv zeta. set (fp := merged_params params (auth_params ad1) s1).
  destruct (requests_request method url (auth_headers ad1) fp kwargs s1)
    as [[r1|e|] s2] eqn:E2.
  2,3: cbn [snd]; destruct (request_run_calls _ _ _ _ _ _ _ _ E2) as (C2 & T2 & I2);
       destruct (api_calls_app _ _ _ _ _ I1 I2) as [-> ->]; rewrite C1, C2, T2; simpl;
       (split; [destruct (is_client_credentials a); lia|]);
       intros Hk; specialize (Hkey Hk s); rewrite E1 in Hkey; simpl in Hkey; subst s1;
       by rewrite (proj2 (api_calls_same s)).
  destruct (request_run_calls _ _ _ _ _ _ _ _ E2) as (C2 & T2 & I2).
  destruct (api_calls_app _ _ _ _ _ I1 I2) as [C12 T12].
  pose proof (issues_po (λ _, True)) as [_ Htrans].
  pose proof (Htrans _ _ _ I1 I2) as I12.
  destruct (is_client_credentials a) eqn:Ecc.
  - split; [|done].
    destruct (status_code r1 =? 401); simpl.
    2: { destruct (status_ok (status_code r1)); cbn [snd];
         rewrite C12, C1, C2; simpl; lia. }
    destruct (auth_force_refresh a s2) as [[[]|e|] s3] eqn:E3.
    2,3: cbn [snd]; destruct (posts_run_calls _ _ _ _ (auth_force_refresh_issues a) E3) as [C3 I3];
         destruct (api_calls_app _ _ _ _ _ I12 I3) as [-> _];
         rewrite C12, C1, C2, C3; simpl; lia.
    destruct (posts_run_calls _ _ _ _ (auth_force_refresh_issues a) E3) as [C3 I3].
    destruct (api_calls_app _ _ _ _ _ I12 I3) as [C123 _].
    pose proof (Htrans _ _ _ I12 I3) as I123.
    destruct (auth_get_auth_data a s3) as [[ad2|e|] s4] eqn:E4.
    2,3: cbn [snd]; destruct (posts_run_calls _ _ _ _ (auth_get_auth_data_issues a) E4) as [C4 I4];
         destruct (api_calls_app _ _ _ _ _ I123 I4) as [-> _];
         rewrite C123, C12, C1, C2, C3, C4; simpl; lia.
    destruct (posts_run_calls _ _ _ _ (auth_get_auth_data_issues a) E4) as [C4 I4].
    destruct (api_calls_app _ _ _ _ _ I123 I4) as [C1234 _].
    pose proof (Htrans _ _ _ I123 I4) as I1234.
    destruct (requests_request method url (auth_headers ad2) fp kwargs s4)
      as [o5 s5] eqn:E5.
    destruct (request_run_calls _ _ _ _ _ _ _ _ E5) as (C5 & _ & I5).
    destruct (api_calls_app _ _ _ _ _ I1234 I5) as [C12345 _].
    assert (length (api_calls s s5) ≤ 2)%nat as Hlen.
    { rewrite C12345, C1234, C123, C12, C1, C2, C3, C4, C5. simpl. lia. }
    destruct o5 as [r2|e|]; cbn [snd]; [|done|done].
    by destruct (status_ok (status_code r2)).
  - rewrite andb_false_r. simpl.
    specialize (Hkey eq_refl s). rewrite E1 in Hkey. simpl in Hkey. subst s1.
    assert (api_calls s s2 = [Req method url (auth_headers ad1) fp kwargs]
            ∧ token_fetches s s2 = []) as [Hc Ht] by done.
    destruct (status_ok (status_code r1)); cbn [snd]; rewrite Hc, Ht; simpl;
      (split; [lia|done]).
Qed.

(** C2.  One [_make_request] makes at most two API calls, and at most one
    when the strategy is not [ClientCredentialsAuth], which then sends no
    token request either.  When the first response is a 401 under
    [ClientCredentialsAuth], the executor refreshes the token (one token
    request between the two calls), takes the headers of a fresh
    [get_auth_data], and sends the same method, URL, parameters and keyword
    arguments once more; what that second exchange gives is the result,
    a 401 included.  When the first response is not a 401 it is the
    result. *)
Theorem C2_single_retry self method endpoint params kwargs s :
  let url := UniversalAPIClient.request_url self endpoint in
  let a := UniversalAPIClient.auth self in
  let out := UniversalAPIClient._make_request self method endpoint params kwargs s in
  let final (o : outcome Reply * State) : outcome Reply * State :=
    match o with
    | (Ok r, s') =>
        (if status_ok (status_code r) then Ok r
         else Raise (HTTPError (status_code r)), s')
    | o => o
    end in
  (length (api_calls s out.2) ≤ 2)%nat ∧
  (is_client_credentials a = false →
   (length (api_calls s out.2) ≤ 1)%nat ∧ token_fetches s out.2 = []) ∧
  (∀ ad1 s1 r1 s2,
     auth_get_auth_data a s = (Ok ad1, s1) →
     let fp := merged_params params (auth_params ad1) s1 in
     let first := Req method url (auth_headers ad1) fp kwargs in
     requests_request method url (auth_headers ad1) fp kwargs s1 = (Ok r1, s2) →
     (status_code r1 ≠ 401 ∨ is_client_credentials a = false →
      out = final (Ok r1, s2) ∧ api_calls s out.2 = [first]) ∧
     (status_code r1 = 401 →
      ∀ c s3 ad2 s4,
        a = AuthClientCredentials c →
        ClientCredentialsAuth.force_refresh c s2 = (Ok tt, s3) →
        ClientCredentialsAuth.get_auth_data c s3 = (Ok ad2, s4) →
        let second := Req method url (auth_headers ad2) fp kwargs in
        out = final (requests_request method url (auth_headers ad2) fp kwargs s4) ∧
        issued s out.2 =
          issued s s1 ++ [first; token_request c] ++ issued s3 s4 ++ [second] ∧
        api_calls s out.2 = [first; second] ∧
        ad2 = bearer (access_token s4))).
Proof.
  cbv zeta.
  pose proof (make_request_call_count self method endpoint params kwargs s) as [Hn Hk].
  cbv zeta in Hn.
  split. { destruct (is_client_credentials (UniversalAPIClient.auth self)); lia. }
  split. { intros Hf. rewrite Hf in Hn. split; [exact Hn|by apply Hk]. }
  intros ad1 s1 r1 s2 E1 E2.
  set (a := UniversalAPIClient.auth self) in *.
  set (url := UniversalAPIClient.request_url self endpoint) in *.
  set (fp := merged_params params (auth_params ad1) s1) in *.
  pose proof (make_request_run self method endpoint params kwargs s) as Hrun.
  cbv zeta in Hrun. fold a url in Hrun. rewrite E1 in Hrun. fold fp in Hrun.
  rewrite E2 in Hrun.
  destruct (posts_run_calls _ _ _ _ (auth_get_auth_data_issues a) E1) as [C1 I1].
  destruct (request_run_calls _ _ _ _ _ _ _ _ E2) as (C2 & T2 & I2).
  destruct (api_calls_app _ _ _ _ _ I1 I2) as [C12 _].
  pose proof (issues_po (λ _, True)) as [_ Htrans].
  pose proof (Htrans _ _ _ I1 I2) as I12.
  split.
  - intros Hno.
    assert ((status_code r1 =? 401) && is_client_credentials a = false) as Hc.
    { destruct Hno as [Hne| ->]; [|apply andb_false_r].
      apply Z.eqb_neq in Hne. by rewrite Hne. }
    rewrite Hc in Hrun. rewrite Hrun. split; [done|].
    destruct (status_ok (status_code r1)); cbn [snd]; by rewrite C12, C1, C2.
  - intros H401 c s3 ad2 s4 Ha E3 E4.
    assert (auth_force_refresh a s2 = (Ok tt, s3)) as E3' by (by rewrite Ha).
    assert (auth_get_auth_data a s3 = (Ok ad2, s4)) as E4' by (by rewrite Ha).
    apply Z.eqb_eq in H401. rewrite H401, Ha in Hrun. simpl in Hrun.
    rewrite E3, E4 in Hrun. rewrite Hrun.
    destruct (posts_run_calls _ _ _ _ (auth_force_refresh_issues a) E3') as [C3 I3].
    destruct (posts_run_calls _ _ _ _ (auth_get_auth_data_issues a) E4') as [C4 I4].
    pose proof (Htrans _ _ _ I12 I3) as I123.
    pose proof (Htrans _ _ _ I123 I4) as I1234.
    destruct (requests_request method url (auth_headers ad2) fp kwargs s4)
      as [o5 s5] eqn:E5.
    destruct (request_run_calls _ _ _ _ _ _ _ _ E5) as (C5 & _ & I5).
    assert (Hs3 : issued s2 s3 = [token_request c]).
    { apply issued_snoc. pose proof (force_refresh_sent c s2) as Hs.
      by rewrite E3 in Hs. }
    assert (Hs2 : issued s1 s2 = [Req method url (auth_headers ad1) fp kwargs]).
    { apply issued_snoc. pose proof (exchange_sent
        (Req method url (auth_headers ad1) fp kwargs) s1) as Hs.
      unfold requests_request in E2. by rewrite E2 in Hs. }
    assert (Hs5 : issued s4 s5 = [Req method url (auth_headers ad2) fp kwargs]).
    { apply issued_snoc. pose proof (exchange_sent
        (Req method url (auth_headers ad2) fp kwargs) s4) as Hs.
      unfold requests_request in E5. by rewrite E5 in Hs. }
    match goal with |- _ = ?t ∧ _ =>
      assert (t.2 = s5) as Hfin by (by destruct o5) end.
    rewrite Hfin.
    split; [done|]. split; [|split].
    + rewrite (issued_app _ _ _ _ _ I1234 I5), (issued_app _ _ _ _ _ I123 I4),
        (issued_app _ _ _ _ _ I12 I3), (issued_app _ _ _ _ _ I1 I2).
      rewrite Hs2, Hs3, Hs5. by rewrite <-!app_assoc.
    + destruct (api_calls_app _ _ _ _ _ I1234 I5) as [-> _].
      destruct (api_calls_app _ _ _ _ _ I123 I4) as [-> _].
      destruct (api_calls_app _ _ _ _ _ I12 I3) as [-> _].
      by rewrite C12, C1, C2, C3, C4, C5.
    + pose proof (get_auth_data_returns c s3 ad2) as Hb.
      rewrite E4 in Hb. by apply Hb.
Qed.

Lemma C2_single_retry_witness :
  let s := world [token_reply "t0" 60; reply 401 None;
                  token_reply "t1" 60; reply 401 None] ∅ in
  let out := UniversalAPIClient._make_request cc_client "GET" "/foo" None ∅ s in
  out.1 = Raise (HTTPError 401) ∧
  api_calls s out.2 =
    [Req "GET" "https://x.com/foo" (auth_headers (bearer (VStr "t0"))) ∅ ∅;
     Req "GET" "https://x.com/foo" (auth_headers (bearer (VStr "t1"))) ∅ ∅] ∧
  inbox out.2 = [].
Proof.
  intros s out.
  destruct (C2_single_retry cc_client "GET" "/foo" None ∅ s) as (_ & _ & H).
  destruct (H (bearer (VStr "t0")) _ (reply 401 None) _ eq_refl eq_refl)
    as [_ Hretry].
  destruct (Hretry eq_refl cc_auth _ (bearer (VStr "t1")) _ eq_refl eq_refl eq_refl)
    as (Hout & _ & Hcalls & _).
  fold out in Hout, Hcalls. split; [by rewrite Hout|].
  split; [exact Hcalls|]. by rewrite Hout.
Defined.

(** ** Pagination *)

(** [get] under an API key, when the next reply has a success status and a
    JSON body. *)
Lemma get_api_key_run self k ad endpoint params s rep rest v :
  UniversalAPIClient.auth self = AuthAPIKey k →
  APIKeyAuth.get_auth_data k s = (Ok ad, s) →
  inbox s = rep :: rest →
  status_ok (status_code rep) = true →
  body rep = Some v →
  UniversalAPIClient.get self endpoint params s =
  (Ok v,
   delivered (Req "GET" (UniversalAPIClient.request_url self endpoint)
                (auth_headers ad) (merged_params params (auth_params ad) s) ∅)
     rep rest s).
Proof.
  intros Ha Had Hin Hst Hbody. unfold UniversalAPIClient.get.
  assert (UniversalAPIClient._make_request self "GET" endpoint params ∅ s =
          (Ok rep, delivered (Req "GET" (UniversalAPIClient.request_url self endpoint)
                (auth_headers ad) (merged_params params (auth_params ad) s) ∅)
                rep rest s)) as Hreq.
  { rewrite make_request_run. cbv zeta. rewrite Ha. simpl. rewrite Had.
    unfold requests_request. rewrite (exchange_run _ _ _ _ Hin).
    rewrite andb_false_r. by rewrite Hst. }
  rewrite (bind_Ok _ _ _ _ _ Hreq). unfold json. by rewrite Hbody.
Qed.

(** One iteration of the OFFSET loop whose fetch returns an object with a
    list of items. *)
Lemma offset_body_run self endpoint params offset_field limit n
    offset total_count results s b page s' :
  as_int limit = Some n →
  UniversalAPIClient.get self endpoint (Some params)
    (store params offset_field (VInt offset) s).2 = (Ok (VDict b), s') →
  default (VList []) (assoc "orders" b) = VList page →
  let tc' := if is_None total_count
             then default VNone (assoc "total_count" b)
             else total_count in
  tc' = VNone ∨ is_Some (as_int tc') →
  UniversalAPIClient.offset_body self endpoint params offset_field limit
    (offset, total_count, results) s =
  (Ok (if amended_offset_stop (offset + n) (as_int tc') page
       then Break (results ++ page)
       else Continue (offset + n, tc', results ++ page)), s').
Proof.
  intros Hlim Hget Hdata tc' Htc.
  unfold UniversalAPIClient.offset_body. cbv beta iota.
  assert (Hstore : store params offset_field (VInt offset) s
                   = (Ok tt, (store params offset_field (VInt offset) s).2)) by done.
  rewrite (bind_Ok _ _ _ _ _ Hstore), (bind_Ok _ _ _ _ _ Hget).
  assert (Hpage : py_get (VDict b) "orders" (VList []) s' = (Ok (VList page), s')).
  { unfold py_get, ret. by rewrite <-Hdata. }
  rewrite (bind_Ok _ _ _ _ _ Hpage).
  unfold py_len, py_iter. unfold bind at 1, ret at 1. unfold bind at 1, ret at 1.
  assert (Htc' : (if is_None total_count then py_get (VDict b) "total_count" VNone
                  else ret total_count) s' = (Ok tc', s')).
  { unfold tc'. by destruct (is_None total_count). }
  rewrite (bind_Ok _ _ _ _ _ Htc').
  unfold py_add. rewrite Hlim. unfold bind at 1, ret at 1.
  unfold amended_offset_stop.
  destruct (25 <=? offset + n); [done|]. simpl.
  destruct Htc as [Hnone|[t Ht]].
  - rewrite Hnone. simpl. unfold bind, ret.
    destruct page; done.
  - rewrite Ht. assert (is_None tc' = false) as -> by (by destruct tc').
    simpl. unfold py_ge. rewrite Ht. unfold bind, ret.
    destruct (t <=? offset + n); [done|]. simpl. by destruct page.
Qed.

Lemma api_key_auth_data_ok k :
  APIKeyAuth.location k = "header" ∨ APIKeyAuth.location k = "query" →
  ∃ ad, ∀ s, APIKeyAuth.get_auth_data k s = (Ok ad, s).
Proof.
  unfold APIKeyAuth.get_auth_data. intros [-> | ->]; simpl; eexists; done.
Qed.




(** Storing the offset in the copy and fetching, under an API key. *)
Lemma fetch_api_key_run self k ad endpoint p field n s d rep rest v :
  UniversalAPIClient.auth self = AuthAPIKey k →
  (∀ s0, APIKeyAuth.get_auth_data k s0 = (Ok ad, s0)) →
  heap s !! p = Some d →
  inbox s = rep :: rest →
  status_ok (status_code rep) = true →
  body rep = Some v →
  let s0 := (store p field (VInt n) s).2 in
  let r := Req "GET" (UniversalAPIClient.request_url self endpoint)
             (auth_headers ad) (auth_params ad ∪ <[field := VInt n]> d) ∅ in
  UniversalAPIClient.get self endpoint (Some p) s0 = (Ok v, delivered r rep rest s0) ∧
  heap (delivered r rep rest s0) !! p = Some (<[field := VInt n]> d) ∧
  sent (delivered r rep rest s0) = sent s ++ [r] ∧
  inbox (delivered r rep rest s0) = rest.
Proof.
  intros Ha Had Hp Hin Hst Hbody s0 r.
  assert (Hp0 : heap s0 !! p = Some (<[field := VInt n]> d)).
  { unfold s0, store, modify. simpl. rewrite lookup_insert_eq. by rewrite Hp. }
  assert (Hr : r = Req "GET" (UniversalAPIClient.request_url self endpoint)
                 (auth_headers ad) (merged_params (Some p) (auth_params ad) s0) ∅).
  { unfold r, merged_params. by rewrite Hp0. }
  rewrite Hr. split; [by apply (get_api_key_run self k)|done].
Qed.

Lemma page_reply_ok items :
  status_ok (status_code (page_reply items)) = true ∧
  body (page_reply items) = Some (VDict [("orders", VList items)]).
Proof. done. Qed.

(** C5.  OFFSET with limit 10 under an API key, against pages of 10, 10
    and 5 items followed by an empty page: [get_all] returns the 25 items
    in the order fetched, after three requests with offsets 0, 10 and 20;
    the empty page is never asked for. *)
Theorem C5_offset_three_pages self k endpoint caller d p1 p2 p3 rest
    limit_field offset_field page_field per_page_field has_more_field s :
  UniversalAPIClient.auth self = AuthAPIKey k →
  APIKeyAuth.location k = "header" ∨ APIKeyAuth.location k = "query" →
  heap s !! caller = Some d →
  d !! limit_field = Some (VInt 10) →
  length p1 = 10%nat → length p2 = 10%nat → length p3 = 5%nat →
  inbox s = [page_reply p1; page_reply p2; page_reply p3; page_reply []] ++ rest →
  let out := UniversalAPIClient.get_all self endpoint (Some caller)
               PaginationStrategy.OFFSET limit_field offset_field page_field
               per_page_field has_more_field s in
  out.1 = Ok (p1 ++ p2 ++ p3) ∧
  length (p1 ++ p2 ++ p3) = 25%nat ∧
  inbox out.2 = page_reply [] :: rest ∧
  ∃ ad, APIKeyAuth.get_auth_data k s = (Ok ad, s) ∧
    issued s out.2 =
      (λ offset, Req "GET" (UniversalAPIClient.request_url self endpoint)
                   (auth_headers ad)
                   (auth_params ad ∪ <[offset_field := VInt offset]> d) ∅)
      <$> [0; 10; 20].
Proof.
  intros Ha Hloc Hcaller Hlimit Hl1 Hl2 Hl3 Hin out.
  destruct (api_key_auth_data_ok k Hloc) as [ad Had].
  assert (Hout : ∃ s', out = (Ok (p1 ++ p2 ++ p3), s') ∧
           inbox s' = page_reply [] :: rest ∧
           sent s' = sent s ++
             ((λ offset, Req "GET" (UniversalAPIClient.request_url self endpoint)
                   (auth_headers ad)
                   (auth_params ad ∪ <[offset_field := VInt offset]> d) ∅)
              <$> [0; 10; 20])).
  { unfold out, UniversalAPIClient.get_all. cbv zeta.
    rewrite (bind_Ok _ _ _ _ _ (copy_params_run (Some caller) s)).
    rewrite Hcaller. simpl default.
    set (p := fresh (dom (heap s))).
    set (s1 := set_heap (<[p := d]> (heap s)) s).
    assert (Hp1 : heap s1 !! p = Some d) by apply lookup_insert_eq.
    unfold gets at 1. unfold bind at 1.
    change (String.eqb PaginationStrategy.OFFSET PaginationStrategy.OFFSET) with true.
    cbv iota. unfold deref, gets. unfold bind at 1. rewrite Hp1. simpl default.
    rewrite Hlimit. simpl default.
    assert (Hin1 : inbox s1 = page_reply p1 :: [page_reply p2; page_reply p3; page_reply []] ++ rest)
      by exact Hin.
    rewrite Hin1. simpl length.
    (* first page *)
    destruct (fetch_api_key_run self k ad endpoint p offset_field 0 s1 d _ _ _
                Ha Had Hp1 Hin1 (proj1 (page_reply_ok p1)) (proj2 (page_reply_ok p1)))
      as (Hget1 & Hh2 & Hs2 & Hi2).
    set (s2 := delivered _ (page_reply p1) _ _) in *.
    assert (Hb1 : UniversalAPIClient.offset_body self endpoint p offset_field
                    (VInt 10) (0, VNone, []) s1
                  = (Ok (Continue (10, VNone, p1)), s2)).
    { rewrite (offset_body_run self endpoint p offset_field (VInt 10) 10 0 VNone []
                 s1 _ p1 s2 eq_refl Hget1 eq_refl (or_introl eq_refl)).
      destruct p1; [discriminate|reflexivity]. }
    rewrite (while_Continue _ _ _ _ _ _ Hb1).
    (* second page *)
    destruct (fetch_api_key_run self k ad endpoint p offset_field 10 s2 _ _ _ _
                Ha Had Hh2 Hi2 (proj1 (page_reply_ok p2)) (proj2 (page_reply_ok p2)))
      as (Hget2 & Hh3 & Hs3 & Hi3).
    set (s3 := delivered _ (page_reply p2) _ _) in *.
    assert (Hb2 : UniversalAPIClient.offset_body self endpoint p offset_field
                    (VInt 10) (10, VNone, p1) s2
                  = (Ok (Continue (20, VNone, p1 ++ p2)), s3)).
    { rewrite (offset_body_run self endpoint p offset_field (VInt 10) 10 10 VNone p1
                 s2 _ p2 s3 eq_refl Hget2 eq_refl (or_introl eq_refl)).
      destruct p2; [discriminate|reflexivity]. }
    rewrite (while_Continue _ _ _ _ _ _ Hb2).
    (* third page *)
    destruct (fetch_api_key_run self k ad endpoint p offset_field 20 s3 _ _ _ _
                Ha Had Hh3 Hi3 (proj1 (page_reply_ok p3)) (proj2 (page_reply_ok p3)))
      as (Hget3 & Hh4 & Hs4 & Hi4).
    set (s4 := delivered _ (page_reply p3) _ _) in *.
    assert (Hb3 : UniversalAPIClient.offset_body self endpoint p offset_field
                    (VInt 10) (20, VNone, p1 ++ p2) s3
                  = (Ok (Break ((p1 ++ p2) ++ p3)), s4)).
    { by rewrite (offset_body_run self endpoint p offset_field (VInt 10) 10 20 VNone
                    (p1 ++ p2) s3 _ p3 s4 eq_refl Hget3 eq_refl (or_introl eq_refl)). }
    rewrite (while_Break _ _ _ _ _ _ Hb3).
    exists s4. split; [by rewrite <-app_assoc|]. split; [exact Hi4|].
    rewrite Hs4, Hs3, Hs2. rewrite !insert_insert_eq. by rewrite <-!app_assoc. }
  destruct Hout as (s' & -> & Hi & Hs). simpl.
  split; [done|]. split; [rewrite !length_app; lia|]. split; [done|].
  exists ad. split; [apply Had|]. by apply issued_snoc.
Qed.

Lemma C5_offset_three_pages_witness :
  let d : dict := {[ "limit" := VInt 10 ]} in
  let p1 := replicate 10 (VStr "a") in
  let p2 := replicate 10 (VStr "b") in
  let p3 := replicate 5 (VStr "c") in
  let s := world [page_reply p1; page_reply p2; page_reply p3; page_reply []]
             {[ 1%positive := d ]} in
  let out := UniversalAPIClient.get_all key_client "/orders" (Some 1%positive)
               PaginationStrategy.OFFSET "limit" "offset" "page" "per_page"
               "has_more" s in
  out.1 = Ok (p1 ++ p2 ++ p3) ∧
  length (p1 ++ p2 ++ p3) = 25%nat ∧
  inbox out.2 = page_reply [] :: [] ∧
  ∃ ad, APIKeyAuth.get_auth_data key_auth s = (Ok ad, s) ∧
    issued s out.2 =
      (λ offset, Req "GET" (UniversalAPIClient.request_url key_client "/orders")
                   (auth_headers ad)
                   (auth_params ad ∪ <[ "offset" := VInt offset]> d) ∅)
      <$> [0; 10; 20].
Proof.
  intros d p1 p2 p3 s out.
  apply (C5_offset_three_pages key_client key_auth "/orders" 1%positive d
           p1 p2 p3 [] "limit" "offset" "page" "per_page" "has_more" s).
  - reflexivity.
  - left. reflexivity.
  - vm_compute. reflexivity.
  - vm_compute. reflexivity.
  - reflexivity.
  - reflexivity.
  - reflexivity.
  - reflexivity.
Defined.

(** C6, amended.  [get_all] with OFFSET starts its loop at offset 0 with no
    total and no results, the limit taken from the copied parameters (50
    when absent).  In an iteration whose fetch returns an object with a
    list of items, the request carries the current offset, the offset then
    advances by the limit, a total already known is kept, the total of the
    first response is the one captured, and the loop stops after the fetch
    exactly when the advanced offset is at least 25, or the total is known
    and the offset has reached it, or the page is empty; otherwise it goes
    on with the advanced offset and the items appended. *)
Theorem C6_offset_loop self endpoint caller limit_field offset_field page_field
    per_page_field has_more_field s_init
    params limit n offset total_count results s b page s' fuel :
  as_int limit = Some n →
  UniversalAPIClient.get self endpoint (Some params)
    (store params offset_field (VInt offset) s).2 = (Ok (VDict b), s') →
  default (VList []) (assoc "orders" b) = VList page →
  total_count = VNone ∨ is_Some (as_int total_count) →
  default VNone (assoc "total_count" b) = VNone
  ∨ is_Some (as_int (default VNone (assoc "total_count" b))) →
  let body := UniversalAPIClient.offset_body self endpoint params offset_field limit in
  UniversalAPIClient.get_all self endpoint caller PaginationStrategy.OFFSET
    limit_field offset_field page_field per_page_field has_more_field s_init
  = (let* p := UniversalAPIClient.copy_params caller in
     let* fuel := gets (λ s, S (length (inbox s))) in
     let* d := deref p in
     while fuel
       (UniversalAPIClient.offset_body self endpoint p offset_field
          (default (VInt 50) (d !! limit_field)))
       (0, VNone, [])) s_init ∧
  (∃ d, heap (store params offset_field (VInt offset) s).2 !! params = Some d ∧
        d !! offset_field = Some (VInt offset)) ∧
  ∃ tc',
    (is_None total_count = false → tc' = total_count) ∧
    (offset = 0 → total_count = VNone → results = [] →
     tc' = default VNone (assoc "total_count" b)) ∧
    while (S fuel) body (offset, total_count, results) s =
      if amended_offset_stop (offset + n) (as_int tc') page
      then (Ok (results ++ page), s')
      else while fuel body (offset + n, tc', results ++ page) s'.
Proof.
  intros Hlim Hget Hdata Htc Hresp body. split; [reflexivity|]. split.
  { eexists. split; [apply lookup_insert_eq|apply lookup_insert_eq]. }
  set (tc' := if is_None total_count
              then default VNone (assoc "total_count" b) else total_count).
  assert (Htc' : tc' = VNone ∨ is_Some (as_int tc')).
  { unfold tc'. by destruct (is_None total_count). }
  pose proof (offset_body_run self endpoint params offset_field limit n offset
                total_count results s b page s' Hlim Hget Hdata Htc') as Hb.
  fold tc' body in Hb.
  exists tc'. split; [|split].
  - intros Hk. unfold tc'. by rewrite Hk.
  - intros _ -> _. done.
  - destruct (amended_offset_stop (offset + n) (as_int tc') page).
    + apply (while_Break _ _ _ _ _ _ Hb).
    + apply (while_Continue _ _ _ _ _ _ Hb).
Qed.

Lemma C6_offset_loop_witness :
  let h : gmap loc dict := {[ 1%positive := {[ "limit" := VInt 10 ]} ]} in
  let s := world [page_reply [VStr "a"]; page_reply []] h in
  let body := UniversalAPIClient.offset_body key_client "/orders" 1%positive
                "offset" (VInt 10) in
  let s' := (UniversalAPIClient.get key_client "/orders" (Some 1%positive)
               (store 1%positive "offset" (VInt 0) s).2).2 in
  ∃ tc', tc' = VNone ∧
    while 2 body (0, VNone, []) s =
      if amended_offset_stop (0 + 10) (as_int tc') [VStr "a"]
      then (Ok ([] ++ [VStr "a"]), s')
      else while 1 body (0 + 10, tc', [] ++ [VStr "a"]) s'.
Proof.
  intros h s body s'.
  destruct (C6_offset_loop key_client "/orders" None "limit" "offset" "page"
              "per_page" "has_more" s 1%positive (VInt 10) 10 0 VNone [] s
              [("orders", VList [VStr "a"])] [VStr "a"] s' 1%nat
              eq_refl eq_refl eq_refl (or_introl eq_refl) (or_introl eq_refl))
    as (_ & _ & tc' & _ & Hfirst & Hloop).
  exists tc'. split; [by apply Hfirst|exact Hloop].
Defined.

(** C6 as stated fails twice.  With limit 25 the loop stops after its first
    fetch although the offset, 25, does not exceed 25, no total is known and
    the page is not empty.  And a total that only the second response
    carries is captured there and stops the loop. *)
Lemma C6_counterexample :
  (let s := world [page_reply [VStr "a"]; page_reply [VStr "b"]]
              {[ 1%positive := {[ "limit" := VInt 25 ]} ]} in
   let out := UniversalAPIClient.get_all key_client "/orders" (Some 1%positive)
                PaginationStrategy.OFFSET "limit" "offset" "page" "per_page"
                "has_more" s in
   out.1 = Ok [VStr "a"] ∧ inbox out.2 = [page_reply [VStr "b"]] ∧
   spec_offset_stop 25 None [VStr "a"] = false) ∧
  (let second := reply 200 (Some (VDict [("orders", VList [VStr "b"]);
                                         ("total_count", VInt 5)])) in
   let s := world [page_reply [VStr "a"]; second; page_reply [VStr "c"]]
              {[ 1%positive := {[ "limit" := VInt 10 ]} ]} in
   let out := UniversalAPIClient.get_all key_client "/orders" (Some 1%positive)
                PaginationStrategy.OFFSET "limit" "offset" "page" "per_page"
                "has_more" s in
   out.1 = Ok [VStr "a"; VStr "b"] ∧ inbox out.2 = [page_reply [VStr "c"]] ∧
   spec_offset_stop 20 None [VStr "b"] = false).
Proof. split; vm_compute; done. Qed.

(** A fetch that fails makes the iteration fail with the same error. *)
Lemma offset_body_get_raise self endpoint p offset_field limit
    offset total_count results s e s' :
  UniversalAPIClient.get self endpoint (Some p)
    (store p offset_field (VInt offset) s).2 = (Raise e, s') →
  UniversalAPIClient.offset_body self endpoint p offset_field limit
    (offset, total_count, results) s = (Raise e, s').
Proof.
  intros Hget. unfold UniversalAPIClient.offset_body. cbv beta iota.
  assert (Hstore : store p offset_field (VInt offset) s
                   = (Ok tt, (store p offset_field (VInt offset) s).2)) by done.
  by rewrite (bind_Ok _ _ _ _ _ Hstore), (bind_Raise _ _ _ _ _ Hget).
Qed.

Lemma page_body_get_raise self endpoint p page_field page results s e s' :
  UniversalAPIClient.get self endpoint (Some p)
    (store p page_field (VInt page) s).2 = (Raise e, s') →
  UniversalAPIClient.page_body self endpoint p page_field (page, results) s
  = (Raise e, s').
Proof.
  intros Hget. unfold UniversalAPIClient.page_body. cbv beta iota.
  assert (Hstore : store p page_field (VInt page) s
                   = (Ok tt, (store p page_field (VInt page) s).2)) by done.
  by rewrite (bind_Ok _ _ _ _ _ Hstore), (bind_Raise _ _ _ _ _ Hget).
Qed.

Lemma has_more_body_get_raise self endpoint p has_more_field
    has_more iteration results s e s' :
  truthy has_more = true →
  UniversalAPIClient.get self endpoint (Some p) s = (Raise e, s') →
  UniversalAPIClient.has_more_body self endpoint p has_more_field
    (has_more, iteration, results) s = (Raise e, s').
Proof.
  intros Ht Hget. unfold UniversalAPIClient.has_more_body. cbv beta iota.
  rewrite Ht. change (negb true) with false. cbv iota.
  by rewrite (bind_Raise _ _ _ _ _ Hget).
Qed.

(** A loop given more fuel than there are replies fails with the error of
    the iteration that fails, however many iterations went well before. *)
Lemma while_reaches_raise {S A} (body : S → M (loop_ctl S A)) st s k st' s' e s'' :
  (∀ st, consumes is_continue (body st)) →
  reaches body st s k st' s' →
  body st' s' = (Raise e, s'') →
  while (Datatypes.S (length (inbox s))) body st s = (Raise e, s'').
Proof.
  intros Hcons Hreach Hbody.
  pose proof (reaches_inbox _ _ _ _ _ _ Hcons Hreach) as Hle.
  replace (Datatypes.S (length (inbox s)))
    with (k + Datatypes.S (length (inbox s) - k))%nat by lia.
  rewrite (while_reaches _ _ _ _ _ _ Hreach).
  by apply while_Raise.
Qed.

(** [get_all] once its parameters are copied: the loop of the strategy,
    run on the copy with one more unit of fuel than there are replies. *)
Lemma get_all_unfold self endpoint caller strategy
    limit_field offset_field page_field per_page_field has_more_field s :
  let p := fresh (dom (heap s)) in
  let s1 := (UniversalAPIClient.copy_params caller s).2 in
  let fuel := Datatypes.S (length (inbox s1)) in
  UniversalAPIClient.get_all self endpoint caller strategy limit_field
    offset_field page_field per_page_field has_more_field s =
  if String.eqb strategy PaginationStrategy.OFFSET then
    while fuel
      (UniversalAPIClient.offset_body self endpoint p offset_field
         (default (VInt 50) (default ∅ (heap s1 !! p) !! limit_field)))
      (0, VNone, []) s1
  else if String.eqb strategy PaginationStrategy.PAGE then
    while fuel (UniversalAPIClient.page_body self endpoint p page_field) (1, []) s1
  else if String.eqb strategy PaginationStrategy.HAS_MORE then
    while fuel (UniversalAPIClient.has_more_body self endpoint p has_more_field)
      (VBool true, 0, []) s1
  else (Ok [], s1).
Proof.
  intros p s1 fuel.
  assert (Hcopy : UniversalAPIClient.copy_params caller s = (Ok p, s1)).
  { unfold s1. by rewrite (copy_params_run caller s). }
  unfold UniversalAPIClient.get_all. cbv zeta.
  rewrite (bind_Ok _ _ _ _ _ Hcopy).
  unfold gets at 1. unfold bind at 1.
  destruct (String.eqb strategy PaginationStrategy.OFFSET); [done|].
  destruct (String.eqb strategy PaginationStrategy.PAGE); [done|].
  by destruct (String.eqb strategy PaginationStrategy.HAS_MORE).
Qed.

(** C9.  Whatever the strategy and however many pages were fetched and
    accumulated before, when the [get] of the next page fails, [get_all]
    fails with that very error, in the state the failed [get] left; it
    returns no items. *)
Theorem C9_get_all_propagates self endpoint caller
    limit_field offset_field page_field per_page_field has_more_field s k e s' :
  let p := fresh (dom (heap s)) in
  let s1 := (UniversalAPIClient.copy_params caller s).2 in
  let get_all strategy :=
    UniversalAPIClient.get_all self endpoint caller strategy limit_field
      offset_field page_field per_page_field has_more_field s in
  (∀ offset total_count results sk,
     reaches (UniversalAPIClient.offset_body self endpoint p offset_field
                (default (VInt 50) (default ∅ (heap s1 !! p) !! limit_field)))
       (0, VNone, []) s1 k (offset, total_count, results) sk →
     UniversalAPIClient.get self endpoint (Some p)
       (store p offset_field (VInt offset) sk).2 = (Raise e, s') →
     get_all PaginationStrategy.OFFSET = (Raise e, s')) ∧
  (∀ page results sk,
     reaches (UniversalAPIClient.page_body self endpoint p page_field)
       (1, []) s1 k (page, results) sk →
     UniversalAPIClient.get self endpoint (Some p)
       (store p page_field (VInt page) sk).2 = (Raise e, s') →
     get_all PaginationStrategy.PAGE = (Raise e, s')) ∧
  (∀ has_more iteration results sk,
     reaches (UniversalAPIClient.has_more_body self endpoint p has_more_field)
       (VBool true, 0, []) s1 k (has_more, iteration, results) sk →
     truthy has_more = true →
     UniversalAPIClient.get self endpoint (Some p) sk = (Raise e, s') →
     get_all PaginationStrategy.HAS_MORE = (Raise e, s')).
Proof.
  intros p s1 get_all. unfold get_all. repeat split.
  - intros offset total_count results sk Hreach Hget.
    rewrite get_all_unfold. cbv zeta. fold p s1.
    change (String.eqb PaginationStrategy.OFFSET PaginationStrategy.OFFSET) with true.
    cbv iota.
    eapply while_reaches_raise; [apply consumes_offset_body|exact Hreach|].
    by apply offset_body_get_raise.
  - intros page results sk Hreach Hget.
    rewrite get_all_unfold. cbv zeta. fold p s1.
    change (String.eqb PaginationStrategy.PAGE PaginationStrategy.OFFSET) with false.
    change (String.eqb PaginationStrategy.PAGE PaginationStrategy.PAGE) with true.
    cbv iota.
    eapply while_reaches_raise; [apply consumes_page_body|exact Hreach|].
    by apply page_body_get_raise.
  - intros has_more iteration results sk Hreach Ht Hget.
    rewrite get_all_unfold. cbv zeta. fold p s1.
    change (String.eqb PaginationStrategy.HAS_MORE PaginationStrategy.OFFSET) with false.
    change (String.eqb PaginationStrategy.HAS_MORE PaginationStrategy.PAGE) with false.
    change (String.eqb PaginationStrategy.HAS_MORE PaginationStrategy.HAS_MORE) with true.
    cbv iota.
    eapply while_reaches_raise; [apply consumes_has_more_body|exact Hreach|].
    by apply has_more_body_get_raise.
Qed.

Lemma C9_get_all_propagates_witness :
  let s := world [page_reply [VStr "a"]; reply 500 None]
             {[ 1%positive := {[ "limit" := VInt 10 ]} ]} in
  UniversalAPIClient.get_all key_client "/orders" (Some 1%positive)
    PaginationStrategy.OFFSET "limit" "offset" "page" "per_page" "has_more" s
  = (Raise (HTTPError 500),
     (UniversalAPIClient.get_all key_client "/orders" (Some 1%positive)
        PaginationStrategy.OFFSET "limit" "offset" "page" "per_page" "has_more"
        s).2).
Proof.
  intros s.
  set (p := fresh (dom (heap s))).
  set (s1 := (UniversalAPIClient.copy_params (Some 1%positive) s).2).
  set (body := UniversalAPIClient.offset_body key_client "/orders" p "offset"
                 (default (VInt 50) (default ∅ (heap s1 !! p) !! "limit"))).
  set (sk := (body (0, VNone, []) s1).2).
  destruct (C9_get_all_propagates key_client "/orders" (Some 1%positive)
              "limit" "offset" "page" "per_page" "has_more" s 1 (HTTPError 500)
              (UniversalAPIClient.get_all key_client "/orders" (Some 1%positive)
                 PaginationStrategy.OFFSET "limit" "offset" "page" "per_page"
                 "has_more" s).2) as [Hoffset _].
  apply (Hoffset 10 VNone [VStr "a"] sk).
  - apply (reaches_step _ _ _ (10, VNone, [VStr "a"]) sk); [|apply reaches_here].
    vm_compute. reflexivity.
  - vm_compute. reflexivity.
Defined.

(** ** The caller's dictionaries *)

Lemma fresh_loc_ne (h : gmap loc dict) l d : h !! l = Some d → fresh (dom h) ≠ l.
Proof.
  intros Hl Heq. apply (is_fresh (dom h)). rewrite Heq.
  apply elem_of_dom. eauto.
Qed.

(** C10.  Every dictionary in the store when [get_all] is called, the
    caller's [params] among them, holds the same entries when [get_all]
    comes back, whatever the strategy and the outcome: the pagination
    fields are written to a copy made at a new place in the store. *)
Theorem C10_get_all_leaves_params self endpoint caller strategy
    limit_field offset_field page_field per_page_field has_more_field s l d :
  heap s !! l = Some d →
  let out := UniversalAPIClient.get_all self endpoint caller strategy limit_field
               offset_field page_field per_page_field has_more_field s in
  heap out.2 !! l = Some d ∧
  ∃ p s1, UniversalAPIClient.copy_params caller s = (Ok p, s1) ∧ p ≠ l ∧
          heap s !! p = None ∧
          (caller = Some l → heap s1 !! p = Some d).
Proof.
  intros Hl out. split.
  - unfold out. rewrite get_all_unfold. cbv zeta.
    set (p := fresh (dom (heap s))).
    set (s1 := (UniversalAPIClient.copy_params caller s).2).
    assert (Hne : p ≠ l) by (by eapply fresh_loc_ne).
    assert (H1 : heap s1 !! l = Some d).
    { unfold s1. rewrite (copy_params_run caller s). simpl.
      by rewrite lookup_insert_ne. }
    rewrite <-H1.
    repeat case_match.
    + refine (preserves_while (frame l) _ _ _ _ s1). intros st.
      apply offset_body_preserves; [apply _|intros; apply get_frame|].
      intros. by apply store_frame.
    + refine (preserves_while (frame l) _ _ _ _ s1). intros st.
      apply page_body_preserves; [apply _|intros; apply get_frame|].
      intros. by apply store_frame.
    + refine (preserves_while (frame l) _ _ _ _ s1). intros st.
      apply has_more_body_preserves; [apply _|intros; apply get_frame].
    + done.
  - eexists _, _. split; [apply copy_params_run|]. simpl.
    split; [by eapply fresh_loc_ne|]. split.
    + apply not_elem_of_dom. apply is_fresh.
    + intros ->. rewrite Hl. simpl. apply lookup_insert_eq.
Qed.

Lemma C10_get_all_leaves_params_witness :
  let d : dict := {[ "limit" := VInt 10 ]} in
  let s := world [page_reply [VStr "a"]; page_reply []] {[ 1%positive := d ]} in
  let out := UniversalAPIClient.get_all key_client "/orders" (Some 1%positive)
               PaginationStrategy.OFFSET "limit" "offset" "page" "per_page"
               "has_more" s in
  heap out.2 !! 1%positive = Some d ∧
  ∃ p s1, UniversalAPIClient.copy_params (Some 1%positive) s = (Ok p, s1) ∧
          p ≠ 1%positive ∧ heap s !! p = None ∧
          (Some 1%positive = Some 1%positive → heap s1 !! p = Some d).
Proof.
  intros d s out.
  apply (C10_get_all_leaves_params key_client "/orders" (Some 1%positive)
           PaginationStrategy.OFFSET "limit" "offset" "page" "per_page"
           "has_more" s 1%positive d).
  vm_compute. reflexivity.
Defined.

(** * Further properties *)

(** ** How many calls the loops can make *)

Lemma store_same_sent l k v : preserves same_sent (store l k v).
Proof. by intros s. Qed.

#[local] Hint Resolve store_same_sent : pres.

Lemma calls_le_quiet {A} (m : M A) : preserves same_sent m → calls_le 0 m.
Proof.
  intros Hm s. specialize (Hm s). unfold same_sent in Hm. split.
  - exists []. by rewrite app_nil_r.
  - unfold api_calls. by rewrite (issued_same _ _ Hm).
Qed.

Lemma calls_le_mono c c' {A} (m : M A) :
  (c ≤ c')%nat → calls_le c m → calls_le c' m.
Proof. intros Hc Hm s. destruct (Hm s). split; [done|lia]. Qed.

Lemma calls_le_bind c1 c2 {A B} (m : M A) (k : A → M B) :
  calls_le c1 m → (∀ a, calls_le c2 (k a)) → calls_le (c1 + c2) (bind m k).
Proof.
  intros Hm Hk s. unfold bind. destruct (Hm s) as [I1 L1].
  destruct (m s) as [[a|e|] s1]; simpl in *; try (split; [done|lia]).
  destruct (Hk a s1) as [I2 L2].
  destruct (api_calls_app _ _ _ _ _ I1 I2) as [-> _].
  split; [by etrans|]. rewrite length_app. lia.
Qed.

Lemma make_request_calls_le self method endpoint params kwargs :
  calls_le (calls_per_request (UniversalAPIClient.auth self))
    (UniversalAPIClient._make_request self method endpoint params kwargs).
Proof.
  intros s. split.
  - eapply issues_weaken; [|apply make_request_issues]. done.
  - apply make_request_call_count.
Qed.

Lemma get_calls_le self endpoint params :
  calls_le (calls_per_request (UniversalAPIClient.auth self))
    (UniversalAPIClient.get self endpoint params).
Proof.
  eapply calls_le_mono; [|apply calls_le_bind;
    [apply make_request_calls_le|intros r; apply calls_le_quiet; pres]].
  lia.
Qed.

Lemma offset_body_calls_le self endpoint p offset_field limit st :
  calls_le (calls_per_request (UniversalAPIClient.auth self))
    (UniversalAPIClient.offset_body self endpoint p offset_field limit st).
Proof.
  destruct st as [[offset total_count] results].
  unfold UniversalAPIClient.offset_body.
  eapply calls_le_mono; [|apply (calls_le_bind 0);
    [apply calls_le_quiet; pres|intros _; apply calls_le_bind;
      [apply get_calls_le|intros r; apply calls_le_quiet; pres]]].
  lia.
Qed.

Lemma page_body_calls_le self endpoint p page_field st :
  calls_le (calls_per_request (UniversalAPIClient.auth self))
    (UniversalAPIClient.page_body self endpoint p page_field st).
Proof.
  destruct st as [page results]. unfold UniversalAPIClient.page_body.
  eapply calls_le_mono; [|apply (calls_le_bind 0);
    [apply calls_le_quiet; pres|intros _; apply calls_le_bind;
      [apply get_calls_le|intros r; apply calls_le_quiet; pres]]].
  lia.
Qed.

Lemma has_more_body_calls_le self endpoint p has_more_field st :
  calls_le (calls_per_request (UniversalAPIClient.auth self))
    (UniversalAPIClient.has_more_body self endpoint p has_more_field st).
Proof.
  destruct st as [[has_more iteration] results].
  unfold UniversalAPIClient.has_more_body.
  destruct (negb (truthy has_more)).
  - eapply calls_le_mono; [|apply calls_le_quiet; pres]. lia.
  - eapply calls_le_mono; [|apply calls_le_bind;
      [apply get_calls_le|intros r; apply calls_le_quiet; pres]].
    lia.
Qed.

(** A loop whose continuing iterations decrease a measure makes at most
    one more iteration than the measure it starts with. *)
Lemma while_calls_le {S A} (body : S → M (loop_ctl S A)) c (μ : S → nat) :
  (∀ st, calls_le c (body st)) →
  (∀ st s st' s', body st s = (Ok (Continue st'), s') → (μ st' < μ st)%nat) →
  ∀ fuel st, calls_le (c * (μ st + 1)) (while fuel body st).
Proof.
  intros Hbody Hμ. induction fuel as [|fuel IH]; intros st s.
  - simpl. split; [exists []; by rewrite app_nil_r|].
    by rewrite (proj1 (api_calls_same s)); simpl; lia.
  - rewrite while_unfold. unfold bind. destruct (Hbody st s) as [I1 L1].
    destruct (body st s) as [[[st'|r]|e|] s1] eqn:E; simpl in *;
      try (split; [done|nia]).
    destruct (IH st' s1) as [I2 L2]. specialize (Hμ _ _ _ _ E).
    destruct (api_calls_app _ _ _ _ _ I1 I2) as [-> _].
    split; [by etrans|]. rewrite length_app. nia.
Qed.

Ltac bind_inv H :=
  let a := fresh "a" in let s1 := fresh "s1" in
  let H1 := fresh "Hm" in
  apply bind_Ok_inv in H as (a & s1 & H1 & H).

(** What an iteration that goes on has done to the loop variables. *)
Lemma offset_body_continue self endpoint p offset_field limit n
    offset total_count results s st' s' :
  as_int limit = Some n →
  UniversalAPIClient.offset_body self endpoint p offset_field limit
    (offset, total_count, results) s = (Ok (Continue st'), s') →
  st'.1.1 = offset + n ∧ offset + n < 25.
Proof.
  intros Hlim H. unfold UniversalAPIClient.offset_body in H. cbv beta iota in H.
  do 6 bind_inv H. bind_inv H.
  unfold py_add in Hm5. rewrite Hlim in Hm5. injection Hm5 as <- <-.
  destruct (25 <=? offset + n) eqn:E; [discriminate|].
  apply Z.leb_gt in E. bind_inv H.
  destruct a5; [discriminate|].
  destruct (negb (truthy a1)); [discriminate|].
  injection H as <- _. done.
Qed.

Lemma page_body_continue self endpoint p page_field page results s st' s' :
  UniversalAPIClient.page_body self endpoint p page_field (page, results) s
  = (Ok (Continue st'), s') →
  st'.1 = page + 1 ∧ page ≤ 3.
Proof.
  intros H. unfold UniversalAPIClient.page_body in H. cbv beta iota in H.
  do 6 bind_inv H.
  destruct (3 <? page) eqn:E; [discriminate|]. apply Z.ltb_ge in E.
  destruct (negb (is_None a4)).
  - bind_inv H. destruct a5; [discriminate|]. by injection H as <- _.
  - destruct (negb (truthy a1)); [discriminate|]. by injection H as <- _.
Qed.

Lemma has_more_body_continue self endpoint p has_more_field
    has_more iteration results s st' s' :
  UniversalAPIClient.has_more_body self endpoint p has_more_field
    (has_more, iteration, results) s = (Ok (Continue st'), s') →
  st'.1.2 = iteration + 1 ∧ iteration + 1 < 3.
Proof.
  intros H. unfold UniversalAPIClient.has_more_body in H. cbv beta iota in H.
  destruct (negb (truthy has_more)); [discriminate|].
  do 5 bind_inv H.
  destruct (3 <=? iteration + 1) eqn:E; [discriminate|]. apply Z.leb_gt in E.
  by injection H as <- _.
Qed.

Lemma copy_params_sent caller s :
  sent (UniversalAPIClient.copy_params caller s).2 = sent s.
Proof. by rewrite copy_params_run. Qed.

Lemma api_calls_from s s1 s' : sent s1 = sent s → api_calls s s' = api_calls s1 s'.
Proof. intros H. unfold api_calls, issued. by rewrite H. Qed.

Lemma copy_params_lookup caller s :
  heap (UniversalAPIClient.copy_params caller s).2 !! fresh (dom (heap s))
  = Some (match caller with
          | Some l => default ∅ (heap s !! l)
          | None => ∅
          end).
Proof. rewrite copy_params_run. simpl. apply lookup_insert_eq. Qed.

Lemma get_all_offset_calls self endpoint caller
    limit_field offset_field page_field per_page_field has_more_field s n :
  as_int (default (VInt 50) (caller_params caller s !! limit_field)) = Some n →
  1 ≤ n →
  let out := UniversalAPIClient.get_all self endpoint caller
               PaginationStrategy.OFFSET limit_field offset_field page_field
               per_page_field has_more_field s in
  (length (api_calls s out.2)
   ≤ calls_per_request (UniversalAPIClient.auth self) * Z.to_nat (24 / n + 1))%nat.
Proof.
  intros Hlim Hn out. unfold out. rewrite get_all_unfold. cbv zeta.
  change (String.eqb PaginationStrategy.OFFSET PaginationStrategy.OFFSET) with true.
  cbv iota. rewrite copy_params_lookup. fold (caller_params caller s). simpl default.
  rewrite (api_calls_from s _ _ (copy_params_sent caller s)).
  set (limit := default (VInt 50) (caller_params caller s !! limit_field)) in *.
  pose proof (while_calls_le
    (UniversalAPIClient.offset_body self endpoint (fresh (dom (heap s)))
       offset_field limit)
    (calls_per_request (UniversalAPIClient.auth self))
    (λ st, Z.to_nat ((24 - st.1.1) / n))
    (offset_body_calls_le self endpoint _ offset_field limit)) as Hw.
  assert (Z.to_nat (24 / n + 1) = (Z.to_nat ((24 - 0) / n) + 1)%nat) as ->.
  { rewrite Z.sub_0_r. rewrite Z2Nat.inj_add; [done| |lia].
    apply Z.div_pos; lia. }
  apply Hw. clear Hw. intros [[offset tc] results] s0 st' s' Hb.
  destruct (offset_body_continue _ _ _ _ _ _ _ _ _ _ _ _ Hlim Hb) as [-> Hlt].
  simpl.
  replace (24 - (offset + n)) with ((24 - offset) + (-1) * n) by lia.
  rewrite Z.div_add by lia.
  assert (1 ≤ (24 - offset) / n).
  { apply Z.div_le_lower_bound; lia. }
  lia.
Qed.

(** X1.  OFFSET with an integer limit [n ≥ 1] (50 when [params] has no
    limit entry) makes at most [24 / n + 1] fetches: that many API calls
    under an API key, twice as many at most under client credentials. *)
Theorem X1_offset_calls_bounded self endpoint caller
    limit_field offset_field page_field per_page_field has_more_field s n :
  as_int (default (VInt 50) (caller_params caller s !! limit_field)) = Some n →
  1 ≤ n →
  let out := UniversalAPIClient.get_all self endpoint caller
               PaginationStrategy.OFFSET limit_field offset_field page_field
               per_page_field has_more_field s in
  (length (api_calls s out.2)
   ≤ calls_per_request (UniversalAPIClient.auth self) * Z.to_nat (24 / n + 1))%nat.
Proof. apply get_all_offset_calls. Qed.

Lemma X1_offset_calls_bounded_witness :
  let s := world (replicate 9 (page_reply [VStr "a"]))
             {[ 1%positive := {[ "max" := VInt 5 ]} ]} in
  let out := UniversalAPIClient.get_all key_client "/orders" (Some 1%positive)
               PaginationStrategy.OFFSET "max" "offset" "page" "per_page"
               "has_more" s in
  (length (api_calls s out.2) ≤ 1 * Z.to_nat (24 / 5 + 1))%nat.
Proof.
  apply (X1_offset_calls_bounded key_client "/orders" (Some 1%positive)
           "max" "offset" "page" "per_page" "has_more"
           (world (replicate 9 (page_reply [VStr "a"]))
              {[ 1%positive := {[ "max" := VInt 5 ]} ]}) 5).
  - vm_compute. reflexivity.
  - lia.
Defined.

(** X2.  When [params] has no limit entry, or an integer limit of 25 or
    more, OFFSET never asks for a second page: one fetch, whatever the
    endpoint answers. *)
Theorem X2_offset_single_fetch self endpoint caller
    limit_field offset_field page_field per_page_field has_more_field s :
  caller_params caller s !! limit_field = None
  ∨ (∃ n, caller_params caller s !! limit_field = Some (VInt n) ∧ 25 ≤ n) →
  let out := UniversalAPIClient.get_all self endpoint caller
               PaginationStrategy.OFFSET limit_field offset_field page_field
               per_page_field has_more_field s in
  (length (api_calls s out.2)
   ≤ calls_per_request (UniversalAPIClient.auth self))%nat.
Proof.
  intros Hlim out.
  assert (∃ n, as_int (default (VInt 50) (caller_params caller s !! limit_field))
               = Some n ∧ 25 ≤ n) as (n & Hn & Hge).
  { destruct Hlim as [-> | (n & -> & Hn)]; [exists 50|exists n]; by simpl. }
  pose proof (get_all_offset_calls self endpoint caller limit_field offset_field
                page_field per_page_field has_more_field s n Hn ltac:(lia)) as H.
  cbv zeta in H. fold out in H.
  assert (24 / n = 0) as Hz by (apply Z.div_small; lia).
  rewrite Hz in H. change (Z.to_nat (0 + 1)) with 1%nat in H. lia.
Qed.

Lemma X2_offset_single_fetch_witness :
  let s := world (replicate 3 (page_reply [VStr "a"])) ∅ in
  let out := UniversalAPIClient.get_all key_client "/orders" None
               PaginationStrategy.OFFSET "limit" "offset" "page" "per_page"
               "has_more" s in
  (length (api_calls s out.2) ≤ 1)%nat.
Proof.
  apply (X2_offset_single_fetch key_client "/orders" None
           "limit" "offset" "page" "per_page" "has_more"
           (world (replicate 3 (page_reply [VStr "a"])) ∅)).
  left. reflexivity.
Defined.

(** X3.  PAGE makes at most four fetches (pages 1 to 4), whatever the
    endpoint answers. *)
Theorem X3_page_calls_bounded self endpoint caller
    limit_field offset_field page_field per_page_field has_more_field s :
  let out := UniversalAPIClient.get_all self endpoint caller
               PaginationStrategy.PAGE limit_field offset_field page_field
               per_page_field has_more_field s in
  (length (api_calls s out.2)
   ≤ calls_per_request (UniversalAPIClient.auth self) * 4)%nat.
Proof.
  intros out. unfold out. rewrite get_all_unfold. cbv zeta.
  change (String.eqb PaginationStrategy.PAGE PaginationStrategy.OFFSET) with false.
  change (String.eqb PaginationStrategy.PAGE PaginationStrategy.PAGE) with true.
  cbv iota.
  rewrite (api_calls_from s _ _ (copy_params_sent caller s)).
  apply (while_calls_le
    (UniversalAPIClient.page_body self endpoint (fresh (dom (heap s))) page_field)
    (calls_per_request (UniversalAPIClient.auth self))
    (λ st, Z.to_nat (4 - st.1))
    (page_body_calls_le self endpoint _ page_field)).
  intros [page results] s0 st' s' Hb.
  destruct (page_body_continue _ _ _ _ _ _ _ _ _ Hb) as [-> Hle]. simpl. lia.
Qed.

(** X4.  HAS_MORE makes at most three fetches, whatever the endpoint
    answers. *)
Theorem X4_has_more_calls_bounded self endpoint caller
    limit_field offset_field page_field per_page_field has_more_field s :
  let out := UniversalAPIClient.get_all self endpoint caller
               PaginationStrategy.HAS_MORE limit_field offset_field page_field
               per_page_field has_more_field s in
  (length (api_calls s out.2)
   ≤ calls_per_request (UniversalAPIClient.auth self) * 3)%nat.
Proof.
  intros out. unfold out. rewrite get_all_unfold. cbv zeta.
  change (String.eqb PaginationStrategy.HAS_MORE PaginationStrategy.OFFSET) with false.
  change (String.eqb PaginationStrategy.HAS_MORE PaginationStrategy.PAGE) with false.
  change (String.eqb PaginationStrategy.HAS_MORE PaginationStrategy.HAS_MORE) with true.
  cbv iota.
  rewrite (api_calls_from s _ _ (copy_params_sent caller s)).
  apply (while_calls_le
    (UniversalAPIClient.has_more_body self endpoint (fresh (dom (heap s)))
       has_more_field)
    (calls_per_request (UniversalAPIClient.auth self))
    (λ st, Z.to_nat (2 - st.1.2))
    (has_more_body_calls_le self endpoint _ has_more_field)).
  intros [[has_more iteration] results] s0 st' s' Hb.
  destruct (has_more_body_continue _ _ _ _ _ _ _ _ _ _ Hb) as [-> Hlt].
  simpl. lia.
Qed.

(** ** What the pagination engine sends *)

Lemma Forall_no_posts (Q : Request → Prop) l :
  Forall (λ r, is_post r = true ∨ Q r) l →
  filter (λ r, is_post r = true) l = [] → Forall Q l.
Proof.
  induction 1 as [|r l Hr _ IH]; [done|]. intros Hf.
  destruct (decide (is_post r = true)) as [Hp|Hp].
  - by rewrite filter_cons_True in Hf.
  - rewrite filter_cons_False in Hf by done.
    constructor; [by destruct Hr|by apply IH].
Qed.

Lemma token_fetches_from s s1 s' :
  sent s1 = sent s → token_fetches s s' = token_fetches s1 s'.
Proof. intros H. unfold token_fetches, issued. by rewrite H. Qed.

Lemma get_issues_get self endpoint params :
  preserves
    (issues (λ r, is_post r = true
                  ∨ is_get_of (UniversalAPIClient.request_url self endpoint) r))
    (UniversalAPIClient.get self endpoint params).
Proof.
  eapply get_preserves; [apply _|apply exchange_issues| | | |].
  - intros. by left.
  - apply set_token_issues.
  - apply set_expiry_issues.
  - intros. right. by eexists _, _.
Qed.

(** Under an API key, [get] sends no token request. *)
Lemma get_api_key_issues self k endpoint params :
  UniversalAPIClient.auth self = AuthAPIKey k →
  preserves (issues (is_get_of (UniversalAPIClient.request_url self endpoint)))
    (UniversalAPIClient.get self endpoint params).
Proof.
  intros Ha s.
  destruct (issues_issued _ _ _ (get_issues_get self endpoint params s)) as [Hs Hall].
  exists (issued s (UniversalAPIClient.get self endpoint params s).2).
  split; [done|]. apply (Forall_no_posts _ _ Hall).
  unfold UniversalAPIClient.get, bind.
  pose proof (make_request_call_count self "GET" endpoint params ∅ s) as [_ Hk].
  rewrite Ha in Hk. specialize (Hk eq_refl). unfold token_fetches in Hk.
  destruct (UniversalAPIClient._make_request self "GET" endpoint params ∅ s)
    as [[r|e|] s1]; simpl in *; try done.
  unfold json. by destruct (body r).
Qed.

Lemma copy_params_issues Φ caller :
  preserves (issues Φ) (UniversalAPIClient.copy_params caller).
Proof.
  intros s. rewrite copy_params_run. exists []. by rewrite app_nil_r.
Qed.

Lemma get_all_preserves_issues Φ self endpoint caller strategy
    limit_field offset_field page_field per_page_field has_more_field :
  (∀ p, preserves (issues Φ) (UniversalAPIClient.get self endpoint p)) →
  preserves (issues Φ)
    (UniversalAPIClient.get_all self endpoint caller strategy limit_field
       offset_field page_field per_page_field has_more_field).
Proof.
  intros Hget. unfold UniversalAPIClient.get_all. cbv zeta.
  apply preserves_bind; [apply _|apply copy_params_issues|]. intros p.
  apply preserves_bind; [apply _|apply preserves_gets; apply _|]. intros fuel.
  repeat case_match.
  - apply preserves_bind; [apply _|pres|]. intros d.
    apply preserves_while; [apply _|]. intros st.
    apply offset_body_preserves; [apply _|done|]. intros. apply store_issues.
  - apply preserves_bind; [apply _|pres|]. intros d.
    apply preserves_while; [apply _|]. intros st.
    apply page_body_preserves; [apply _|done|]. intros. apply store_issues.
  - apply preserves_while; [apply _|]. intros st.
    by apply has_more_body_preserves; [apply _|].
  - apply preserves_ret. apply _.
Qed.

(** X5.  Whatever the strategy and the outcome, every request [get_all]
    sends is a token request or a GET of the one URL of the endpoint,
    without a body; under an API key it sends GETs only. *)
Theorem X5_get_all_sends_gets self endpoint caller strategy
    limit_field offset_field page_field per_page_field has_more_field s :
  let out := UniversalAPIClient.get_all self endpoint caller strategy limit_field
               offset_field page_field per_page_field has_more_field s in
  let url := UniversalAPIClient.request_url self endpoint in
  sent out.2 = sent s ++ issued s out.2 ∧
  Forall (λ r, is_post r = true ∨ is_get_of url r) (issued s out.2) ∧
  (is_client_credentials (UniversalAPIClient.auth self) = false →
   Forall (is_get_of url) (issued s out.2)).
Proof.
  cbv zeta.
  destruct (issues_issued _ _ _
    (get_all_preserves_issues _ self endpoint caller strategy limit_field
       offset_field page_field per_page_field has_more_field
       (get_issues_get self endpoint) s)) as [Hs Hall].
  split; [done|]. split; [done|].
  intros Hk. destruct (UniversalAPIClient.auth self) as [k|c] eqn:Ha; [|done].
  apply (issues_issued _ _ _
    (get_all_preserves_issues _ self endpoint caller strategy limit_field
       offset_field page_field per_page_field has_more_field
       (λ p, get_api_key_issues self k endpoint p Ha) s)).
Qed.

Lemma X5_get_all_sends_gets_witness :
  let s := world [page_reply [VStr "a"]; page_reply []] ∅ in
  let out := UniversalAPIClient.get_all key_client "/orders" None
               PaginationStrategy.HAS_MORE "limit" "offset" "page" "per_page"
               "has_more" s in
  Forall (is_get_of "https://x.com/orders") (issued s out.2).
Proof.
  intros s out.
  destruct (X5_get_all_sends_gets key_client "/orders" None
              PaginationStrategy.HAS_MORE "limit" "offset" "page" "per_page"
              "has_more" s) as (_ & _ & Hkey).
  apply Hkey. reflexivity.
Defined.

(** ** What the executor leaves alone *)

Lemma post_same_heap self endpoint json_body :
  preserves same_heap (UniversalAPIClient.post self endpoint json_body).
Proof.
  unfold UniversalAPIClient.post.
  apply preserves_bind; [apply _|apply make_request_same_heap|]. pres.
Qed.

(** X6.  [_make_request], [get] and [post] only read the dictionary given as
    [params]: the store is the same afterwards, whatever the outcome. *)
Theorem X6_requests_leave_store self method endpoint params kwargs json_body s :
  heap (UniversalAPIClient._make_request self method endpoint params kwargs s).2
    = heap s ∧
  heap (UniversalAPIClient.get self endpoint params s).2 = heap s ∧
  heap (UniversalAPIClient.post self endpoint json_body s).2 = heap s.
Proof.
  split; [apply make_request_same_heap|].
  split; [apply get_same_heap|apply post_same_heap].
Qed.

(** ** Token fetches that fail *)



(** X8.  When the token endpoint answers with a status from 400 to 599,
    [_authenticate] raises [HTTPError] with that status without reading the
    body, and the cached token and expiry stay as they were; when the
    endpoint cannot be reached it raises [ConnectionError], likewise.  The
    token request has been sent in both cases. *)
Theorem X8_authenticate_failure_keeps_cache c s :
  let out := ClientCredentialsAuth._authenticate c s in
  (inbox s = [] →
   out = (Raise ConnectionError, set_sent (sent s ++ [token_request c]) s)) ∧
  (∀ rep rest,
     inbox s = rep :: rest → status_ok (status_code rep) = false →
     out = (Raise (HTTPError (status_code rep)),
            delivered (token_request c) rep rest s) ∧
     access_token out.2 = access_token s ∧ expiry_time out.2 = expiry_time s).
Proof.
  cbv zeta. unfold ClientCredentialsAuth._authenticate, requests_post.
  fold (token_request c). split.
  - intros Hin. unfold bind at 1, exchange. by rewrite Hin.
  - intros rep rest Hin Hst.
    rewrite (bind_Ok _ _ _ _ _ (exchange_run _ _ _ _ Hin)).
    unfold bind at 1, raise_for_status. unfold status_ok in Hst.
    apply negb_false_iff in Hst. by rewrite Hst.
Qed.

Lemma X8_authenticate_failure_keeps_cache_witness :
  let s := set_access_token (VStr "old") (set_expiry_time 5000
             (world [reply 503 None] ∅)) in
  let out := ClientCredentialsAuth._authenticate cc_auth s in
  out.1 = Raise (HTTPError 503) ∧
  access_token out.2 = VStr "old" ∧ expiry_time out.2 = 5000.
Proof.
  intros s out.
  destruct (X8_authenticate_failure_keeps_cache cc_auth s) as [_ H].
  destruct (H (reply 503 None) [] eq_refl eq_refl) as (Hout & Htok & Hexp).
  fold out in Hout, Htok, Hexp. split; [by rewrite Hout|]. done.
Defined.

(** X9.  When the token endpoint answers with an [access_token] and an
    [expires_in] that is not a number (a string, say), [_authenticate]
    raises [TypeError] after it has replaced the cached token: the new
    token stays cached with the old expiry. *)
Theorem X9_authenticate_bad_expires_in c s rep rest d tok v :
  inbox s = rep :: rest →
  status_ok (status_code rep) = true →
  body rep = Some (VDict d) →
  assoc "access_token" d = Some tok →
  assoc "expires_in" d = Some v →
  as_int v = None →
  let out := ClientCredentialsAuth._authenticate c s in
  out.1 = Raise TypeError ∧
  access_token out.2 = tok ∧ expiry_time out.2 = expiry_time s.
Proof.
  intros Hin Hst Hbody Htok Hv Hint out.
  pose proof (authenticate_run c s rep rest d Hin Hst Hbody) as Hrun.
  cbv zeta in Hrun. rewrite Htok, Hv in Hrun. simpl in Hrun.
  rewrite Hint in Hrun. unfold out. by rewrite Hrun.
Qed.

Lemma X9_authenticate_bad_expires_in_witness :
  let rep := reply 200 (Some (VDict [("access_token", VStr "t0");
                                     ("expires_in", VStr "3600")])) in
  let out := ClientCredentialsAuth._authenticate cc_auth (world [rep] ∅) in
  out.1 = Raise TypeError ∧
  access_token out.2 = VStr "t0" ∧ expiry_time out.2 = 0.
Proof.
  intros rep out.
  apply (X9_authenticate_bad_expires_in cc_auth (world [rep] ∅) rep []
           [("access_token", VStr "t0"); ("expires_in", VStr "3600")]
           (VStr "t0") (VStr "3600")); reflexivity.
Defined.

(** ** Construction *)


(** Building a client with an API key succeeds whatever the location. *)
Lemma init_api_key_any_location base_url cfg s key :
  cfg_auth_type cfg = Some "api_key" →
  cfg_api_key cfg = Some key →
  ∃ self, UniversalAPIClient.__init__ base_url cfg s = (Ok self, s) ∧
    ∃ k, UniversalAPIClient.auth self = AuthAPIKey k ∧
         APIKeyAuth.location k = default "header" (cfg_location cfg).
Proof.
  intros Hty Hkey. unfold UniversalAPIClient.__init__, UniversalAPIClient._create_auth.
  cbv zeta. rewrite Hty, Hkey. rewrite bool_decide_eq_true_2 by done.
  unfold bind, required, ret. simpl. eexists. split; [done|]. by eexists.
Qed.

(** A location that is neither "header" nor "query" makes every request
    fail before anything is sent. *)
Lemma api_key_bad_location_request self k method endpoint params kwargs s :
  UniversalAPIClient.auth self = AuthAPIKey k →
  APIKeyAuth.location k ≠ "header" → APIKeyAuth.location k ≠ "query" →
  UniversalAPIClient._make_request self method endpoint params kwargs s
  = (Raise (ValueError "Invalid API key location"), s).
Proof.
  intros Ha Hh Hq. unfold UniversalAPIClient._make_request. cbv zeta.
  rewrite Ha. simpl. unfold APIKeyAuth.get_auth_data.
  apply String.eqb_neq in Hh, Hq. by rewrite Hh, Hq.
Qed.

(** X11.  The location of an API key is not checked when the client is
    built: [__init__] succeeds with any location.  With a location that is
    neither "header" nor "query", every [get], [post] and [get_all] of one
    of the three strategies then raises [ValueError], and nothing is ever
    sent. *)
Theorem X11_bad_location_fails_at_request base_url cfg key loc s :
  cfg_auth_type cfg = Some "api_key" →
  cfg_api_key cfg = Some key →
  cfg_location cfg = Some loc →
  loc ≠ "header" → loc ≠ "query" →
  ∃ self,
    UniversalAPIClient.__init__ base_url cfg s = (Ok self, s) ∧
    let e := ValueError "Invalid API key location" in
    (∀ endpoint params s0,
       UniversalAPIClient.get self endpoint params s0 = (Raise e, s0)) ∧
    (∀ endpoint json_body s0,
       UniversalAPIClient.post self endpoint json_body s0 = (Raise e, s0)) ∧
    (∀ endpoint caller strategy limit_field offset_field page_field
       per_page_field has_more_field s0,
       strategy = PaginationStrategy.OFFSET ∨ strategy = PaginationStrategy.PAGE
       ∨ strategy = PaginationStrategy.HAS_MORE →
       let out := UniversalAPIClient.get_all self endpoint caller strategy
                    limit_field offset_field page_field per_page_field
                    has_more_field s0 in
       out.1 = Raise e ∧ sent out.2 = sent s0 ∧ inbox out.2 = inbox s0).
Proof.
  intros Hty Hkey Hloc Hh Hq.
  destruct (init_api_key_any_location base_url cfg s key Hty Hkey) as (self & Hinit & Ha).
  exists self. split; [done|]. cbv zeta.
  destruct Ha as (k & Ha & Hk). rewrite Hloc in Hk. simpl in Hk.
  assert (Hreq : ∀ method endpoint params kwargs s0,
    UniversalAPIClient._make_request self method endpoint params kwargs s0
    = (Raise (ValueError "Invalid API key location"), s0)).
  { intros. apply (api_key_bad_location_request self k); by rewrite ?Hk. }
  assert (Hget : ∀ endpoint params s0,
    UniversalAPIClient.get self endpoint params s0
    = (Raise (ValueError "Invalid API key location"), s0)).
  { intros. unfold UniversalAPIClient.get. by rewrite (bind_Raise _ _ _ _ _ (Hreq _ _ _ _ _)). }
  split; [done|]. split.
  { intros. unfold UniversalAPIClient.post. by rewrite (bind_Raise _ _ _ _ _ (Hreq _ _ _ _ _)). }
  intros endpoint caller strategy f1 f2 f3 f4 f5 s0 Hs.
  rewrite get_all_unfold. cbv zeta.
  destruct Hs as [-> | [-> | ->]].
  - change (String.eqb PaginationStrategy.OFFSET PaginationStrategy.OFFSET) with true.
    cbv iota. erewrite while_Raise; [|apply offset_body_get_raise, Hget].
    simpl. by rewrite copy_params_run.
  - change (String.eqb PaginationStrategy.PAGE PaginationStrategy.OFFSET) with false.
    change (String.eqb PaginationStrategy.PAGE PaginationStrategy.PAGE) with true.
    cbv iota. erewrite while_Raise; [|apply page_body_get_raise, Hget].
    simpl. by rewrite copy_params_run.
  - change (String.eqb PaginationStrategy.HAS_MORE PaginationStrategy.OFFSET) with false.
    change (String.eqb PaginationStrategy.HAS_MORE PaginationStrategy.PAGE) with false.
    change (String.eqb PaginationStrategy.HAS_MORE PaginationStrategy.HAS_MORE) with true.
    cbv iota. erewrite while_Raise; [|by apply has_more_body_get_raise; [|apply Hget]].
    by rewrite copy_params_run.
Qed.

Lemma X11_bad_location_fails_at_request_witness :
  ∃ self,
    UniversalAPIClient.__init__ "https://x.com/" cookie_config (world [] ∅)
      = (Ok self, world [] ∅) ∧
    UniversalAPIClient.get self "/orders" None (world [page_reply []] ∅)
      = (Raise (ValueError "Invalid API key location"), world [page_reply []] ∅).
Proof.
  destruct (X11_bad_location_fails_at_request "https://x.com/" cookie_config
              (VStr "secret") "cookie" (world [] ∅)
              eq_refl eq_refl eq_refl) as (self & Hinit & Hget & _);
    [discriminate|discriminate|].
  exists self. split; [exact Hinit|apply Hget].
Defined.

(** ** One request under an API key *)



(** ** Slashes at the joint *)

Lemma rstrip_slashes_only n : rstrip "/" (slashes n) = EmptyString.
Proof. induction n as [|n IH]; [done|]. simpl. by rewrite IH. Qed.

Lemma rstrip_app_slashes b n : rstrip "/" (b +:+ slashes n) = rstrip "/" b.
Proof.
  induction b as [|a b IH]; simpl.
  - apply rstrip_slashes_only.
  - change (String a b +:+ slashes n) with (String a (b +:+ slashes n)).
    simpl. by rewrite IH.
Qed.

Lemma lstrip_slashes_app m e : lstrip "/" (slashes m +:+ e) = lstrip "/" e.
Proof. induction m as [|m IH]; [done|]. simpl. exact IH. Qed.

(** X13.  Trailing slashes of the base URL and leading slashes of the
    endpoint never reach the request URL: two clients built from base URLs
    that differ only in trailing slashes send the requests for two
    endpoints that differ only in leading slashes to the same URL. *)
Theorem X13_url_ignores_joint_slashes base_url cfg endpoint n m
    self1 self2 s s1 s2 :
  UniversalAPIClient.__init__ base_url cfg s = (Ok self1, s1) →
  UniversalAPIClient.__init__ (base_url +:+ slashes n) cfg s = (Ok self2, s2) →
  UniversalAPIClient.request_url self2 (slashes m +:+ endpoint)
  = UniversalAPIClient.request_url self1 endpoint ∧
  rstrip "/" (rstrip "/" base_url) = rstrip "/" base_url ∧
  lstrip "/" (lstrip "/" endpoint) = lstrip "/" endpoint.
Proof.
  intros H1%init_base_url H2%init_base_url.
  unfold UniversalAPIClient.request_url.
  rewrite H1, H2, rstrip_app_slashes, lstrip_slashes_app.
  split; [done|]. split.
  - destruct (rstrip_slashes base_url) as (k & Hb & _).
    rewrite Hb at 2. by rewrite rstrip_app_slashes.
  - destruct (lstrip_slashes endpoint) as (k & He & _).
    rewrite He at 2. by rewrite lstrip_slashes_app.
Qed.

Lemma X13_url_ignores_joint_slashes_witness :
  UniversalAPIClient.request_url key_client (slashes 2 +:+ "orders")
  = UniversalAPIClient.request_url key_client "orders" ∧
  rstrip "/" (rstrip "/" "https://x.com") = rstrip "/" "https://x.com" ∧
  lstrip "/" (lstrip "/" "orders") = lstrip "/" "orders".
Proof.
  apply (X13_url_ignores_joint_slashes "https://x.com" key_config "orders" 3 2
           key_client key_client (world [] ∅) (world [] ∅) (world [] ∅));
    reflexivity.
Defined.

(** ** The PAGE and HAS_MORE loops, run *)

(** One iteration of the PAGE loop whose fetch returns an object with a
    list of items. *)
Lemma page_body_run self endpoint p page_field page results s b items s' :
  UniversalAPIClient.get self endpoint (Some p)
    (store p page_field (VInt page) s).2 = (Ok (VDict b), s') →
  default (VList []) (assoc "orders" b) = VList items →
  let total_pages := default VNone (assoc "total_pages" b) in
  total_pages = VNone ∨ is_Some (as_int total_pages) →
  UniversalAPIClient.page_body self endpoint p page_field (page, results) s =
  (Ok (if 3 <? page then Break (results ++ items)
       else match as_int total_pages with
            | Some t => if t <=? page then Break (results ++ items)
                        else Continue (page + 1, results ++ items)
            | None => match items with
                      | [] => Break (results ++ items)
                      | _ => Continue (page + 1, results ++ items)
                      end
            end), s').
Proof.
  intros Hget Hdata tp Htp.
  unfold UniversalAPIClient.page_body. cbv beta iota.
  assert (Hstore : store p page_field (VInt page) s
                   = (Ok tt, (store p page_field (VInt page) s).2)) by done.
  rewrite (bind_Ok _ _ _ _ _ Hstore), (bind_Ok _ _ _ _ _ Hget).
  assert (Hpage : py_get (VDict b) "orders" (VList []) s' = (Ok (VList items), s')).
  { unfold py_get, ret. by rewrite <-Hdata. }
  rewrite (bind_Ok _ _ _ _ _ Hpage).
  unfold py_len, py_iter. unfold bind at 1, ret at 1. unfold bind at 1, ret at 1.
  unfold py_get at 1. unfold bind at 1, ret at 1.
  change (match assoc "total_pages" b with Some x => x | None => VNone end) with tp.
  destruct (3 <? page); [done|].
  destruct Htp as [Hnone|[t Ht]].
  - rewrite Hnone. simpl. by destruct items.
  - rewrite Ht. assert (is_None tp = false) as -> by (by destruct tp).
    simpl. unfold py_ge. rewrite Ht. unfold bind, ret.
    by destruct (t <=? page).
Qed.

(** One iteration of the HAS_MORE loop. *)
Lemma has_more_body_run self endpoint p has_more_field
    has_more iteration results s b items s' :
  truthy has_more = true →
  UniversalAPIClient.get self endpoint (Some p) s = (Ok (VDict b), s') →
  default (VList []) (assoc "orders" b) = VList items →
  UniversalAPIClient.has_more_body self endpoint p has_more_field
    (has_more, iteration, results) s =
  (Ok (if 3 <=? iteration + 1 then Break (results ++ items)
       else Continue (default (VBool false) (assoc has_more_field b),
                      iteration + 1, results ++ items)), s').
Proof.
  intros Ht Hget Hdata.
  unfold UniversalAPIClient.has_more_body. cbv beta iota.
  rewrite Ht. change (negb true) with false. cbv iota.
  rewrite (bind_Ok _ _ _ _ _ Hget).
  assert (Hpage : py_get (VDict b) "orders" (VList []) s' = (Ok (VList items), s')).
  { unfold py_get, ret. by rewrite <-Hdata. }
  rewrite (bind_Ok _ _ _ _ _ Hpage).
  unfold py_len, py_iter. unfold bind at 1, ret at 1. unfold bind at 1, ret at 1.
  unfold py_get at 1. unfold bind at 1, ret at 1.
  by destruct (3 <=? iteration + 1).
Qed.

Lemma has_more_body_done self endpoint p has_more_field
    has_more iteration results s :
  truthy has_more = false →
  UniversalAPIClient.has_more_body self endpoint p has_more_field
    (has_more, iteration, results) s = (Ok (Break results), s).
Proof.
  intros Ht. unfold UniversalAPIClient.has_more_body. cbv beta iota.
  by rewrite Ht.
Qed.

Lemma page_total_reply_ok T items :
  status_ok (status_code (page_total_reply T items)) = true ∧
  body (page_total_reply T items)
  = Some (VDict [("orders", VList items); ("total_pages", VInt T)]).
Proof. done. Qed.

(** The PAGE loop under an API key, against pages that all report [T]
    pages: from page [page] on it fetches up to [last_page T]. *)
Lemma page_loop_run self k ad endpoint p page_field T d :
  UniversalAPIClient.auth self = AuthAPIKey k →
  (∀ s0, APIKeyAuth.get_auth_data k s0 = (Ok ad, s0)) →
  ∀ pages page results s dcur rest fuel,
    1 ≤ page ≤ last_page T →
    length pages = Z.to_nat (last_page T - page + 1) →
    heap s !! p = Some dcur →
    (∀ v, <[page_field := v]> dcur = <[page_field := v]> d) →
    inbox s = (page_total_reply T <$> pages) ++ rest →
    (length pages ≤ fuel)%nat →
    ∃ s',
      while fuel (UniversalAPIClient.page_body self endpoint p page_field)
        (page, results) s = (Ok (results ++ concat pages), s') ∧
      inbox s' = rest ∧
      sent s' = sent s ++
        ((λ i, Req "GET" (UniversalAPIClient.request_url self endpoint)
                 (auth_headers ad)
                 (auth_params ad ∪ <[page_field := VInt i]> d) ∅)
         <$> seqZ page (Z.of_nat (length pages))).
Proof.
  intros Ha Had. induction pages as [|items pages IH];
    intros page results s dcur rest fuel Hpage Hlen Hp Hd Hin Hfuel.
  { simpl in Hlen. unfold last_page in *. lia. }
  destruct fuel as [|fuel]; [simpl in Hfuel; lia|].
  simpl in Hin.
  destruct (fetch_api_key_run self k ad endpoint p page_field page s dcur _ _ _
              Ha Had Hp Hin (proj1 (page_total_reply_ok T items))
              (proj2 (page_total_reply_ok T items)))
    as (Hget & Hh2 & Hs2 & Hi2).
  set (s2 := delivered _ (page_total_reply T items) _ _) in *.
  rewrite Hd in Hs2.
  pose proof (page_body_run self endpoint p page_field page results s _ items s2
                Hget eq_refl (or_intror (mk_is_Some _ _ eq_refl))) as Hb.
  cbv zeta in Hb.
  change (as_int (default VNone (assoc "total_pages"
            [("orders", VList items); ("total_pages", VInt T)]))) with (Some T) in Hb.
  rewrite seqZ_cons by (simpl; lia).
  destruct pages as [|items2 pages].
  - assert ((3 <? page) || (T <=? page) = true) as Hstop.
    { simpl in Hlen. unfold last_page in *.
      destruct (Z.ltb_spec 3 page), (Z.leb_spec T page); simpl; lia. }
    assert (UniversalAPIClient.page_body self endpoint p page_field (page, results) s
            = (Ok (Break (results ++ items)), s2)) as Hb'.
    { rewrite Hb. destruct (3 <? page); [done|]. simpl in Hstop. by rewrite Hstop. }
    rewrite (while_Break _ _ _ _ _ _ Hb').
    exists s2. simpl. rewrite app_nil_r. done.
  - assert ((3 <? page) = false ∧ (T <=? page) = false) as [H3 HT].
    { simpl in Hlen. unfold last_page in *.
      destruct (Z.ltb_spec 3 page), (Z.leb_spec T page); lia. }
    rewrite H3, HT in Hb.
    rewrite (while_Continue _ _ _ _ _ _ Hb).
    destruct (IH (page + 1) (results ++ items) s2 (<[page_field := VInt page]> dcur)
                rest fuel) as (s' & Hrun & Hi & Hs).
    + unfold last_page in *. simpl in Hlen. lia.
    + simpl in *. unfold last_page in *. lia.
    + done.
    + intros v. by rewrite insert_insert_eq.
    + done.
    + simpl in *. lia.
    + exists s'. split; [|split; [done|]].
      * rewrite Hrun. simpl. by rewrite <-app_assoc.
      * rewrite Hs, Hs2. rewrite <-app_assoc. simpl.
        replace (Z.pred (Z.of_nat (S (S (length pages)))))
          with (Z.of_nat (S (length pages))) by lia.
        done.
Qed.

(** X14.  PAGE under an API key, against an endpoint whose responses all
    report [total_pages = T]: [get_all] fetches the pages 1 to [T], but at
    least page 1 and at most page 4, returns their items in that order
    (empty pages do not stop it) and asks for nothing more. *)
Theorem X14_page_follows_total_pages self k endpoint caller T pages rest
    limit_field offset_field page_field per_page_field has_more_field s :
  UniversalAPIClient.auth self = AuthAPIKey k →
  APIKeyAuth.location k = "header" ∨ APIKeyAuth.location k = "query" →
  length pages = Z.to_nat (last_page T) →
  inbox s = (page_total_reply T <$> pages) ++ rest →
  let out := UniversalAPIClient.get_all self endpoint caller
               PaginationStrategy.PAGE limit_field offset_field page_field
               per_page_field has_more_field s in
  out.1 = Ok (concat pages) ∧
  inbox out.2 = rest ∧
  ∃ ad, APIKeyAuth.get_auth_data k s = (Ok ad, s) ∧
    issued s out.2 =
      (λ i, Req "GET" (UniversalAPIClient.request_url self endpoint)
              (auth_headers ad)
              (auth_params ad ∪ <[page_field := VInt i]> (caller_params caller s)) ∅)
      <$> seqZ 1 (last_page T).
Proof.
  intros Ha Hloc Hlen Hin out.
  destruct (api_key_auth_data_ok k Hloc) as [ad Had].
  unfold out. rewrite get_all_unfold. cbv zeta.
  change (String.eqb PaginationStrategy.PAGE PaginationStrategy.OFFSET) with false.
  change (String.eqb PaginationStrategy.PAGE PaginationStrategy.PAGE) with true.
  cbv iota.
  set (s1 := (UniversalAPIClient.copy_params caller s).2).
  assert (Hin1 : inbox s1 = inbox s) by (unfold s1; by rewrite copy_params_run).
  destruct (page_loop_run self k ad endpoint (fresh (dom (heap s))) page_field T
              (caller_params caller s) Ha Had pages 1 [] s1
              (caller_params caller s) rest (S (length (inbox s1))))
    as (s' & Hrun & Hi & Hs).
  - unfold last_page. lia.
  - rewrite Hlen. f_equal. lia.
  - apply copy_params_lookup.
  - done.
  - by rewrite Hin1.
  - rewrite Hin1, Hin, length_app, length_fmap. lia.
  - rewrite Hrun. simpl. split; [done|]. split; [done|].
    exists ad. split; [apply Had|]. apply issued_snoc.
    rewrite Hs. unfold s1. rewrite copy_params_sent.
    rewrite Hlen, Z2Nat.id; [done|]. unfold last_page. lia.
Qed.

Lemma X14_page_follows_total_pages_witness :
  let s := world [page_total_reply 2 [VStr "a"]; page_total_reply 2 [VStr "b"];
                  page_total_reply 2 [VStr "c"]] ∅ in
  let out := UniversalAPIClient.get_all key_client "/orders" None
               PaginationStrategy.PAGE "limit" "offset" "page" "per_page"
               "has_more" s in
  out.1 = Ok (concat [[VStr "a"]; [VStr "b"]]) ∧
  inbox out.2 = [page_total_reply 2 [VStr "c"]] ∧
  ∃ ad, APIKeyAuth.get_auth_data key_auth s = (Ok ad, s) ∧
    issued s out.2 =
      (λ i, Req "GET" (UniversalAPIClient.request_url key_client "/orders")
              (auth_headers ad)
              (auth_params ad ∪ <[ "page" := VInt i]> (caller_params None s)) ∅)
      <$> seqZ 1 (last_page 2).
Proof.
  apply (X14_page_follows_total_pages key_client key_auth "/orders" None 2
           [[VStr "a"]; [VStr "b"]] [page_total_reply 2 [VStr "c"]]
           "limit" "offset" "page" "per_page" "has_more"
           (world [page_total_reply 2 [VStr "a"]; page_total_reply 2 [VStr "b"];
                   page_total_reply 2 [VStr "c"]] ∅)).
  - reflexivity.
  - left. reflexivity.
  - reflexivity.
  - reflexivity.
Defined.

(** An iteration of the HAS_MORE loop under an API key: the request carries
    the copied parameters as they are. *)
Lemma has_more_step self k ad endpoint p has_more_field d
    has_more iteration results s rep rest b items :
  UniversalAPIClient.auth self = AuthAPIKey k →
  (∀ s0, APIKeyAuth.get_auth_data k s0 = (Ok ad, s0)) →
  heap s !! p = Some d →
  inbox s = rep :: rest →
  good_page rep b items →
  truthy has_more = true →
  let r := Req "GET" (UniversalAPIClient.request_url self endpoint)
             (auth_headers ad) (auth_params ad ∪ d) ∅ in
  UniversalAPIClient.has_more_body self endpoint p has_more_field
    (has_more, iteration, results) s =
  (Ok (if 3 <=? iteration + 1 then Break (results ++ items)
       else Continue (default (VBool false) (assoc has_more_field b),
                      iteration + 1, results ++ items)),
   delivered r rep rest s).
Proof.
  intros Ha Had Hp Hin (Hst & Hbody & Hitems) Ht r.
  apply has_more_body_run; [done| |done].
  rewrite (get_api_key_run self k ad endpoint (Some p) s rep rest (VDict b)
             Ha (Had s) Hin Hst Hbody).
  unfold merged_params. by rewrite Hp.
Qed.

(** X15.  HAS_MORE under an API key, against well-formed pages.  It stops
    after the first page whose flag is false in Python's sense (or absent),
    and after the third page whatever its flag says; it returns the items
    of the pages fetched, in order; every request carries the caller's
    parameters unchanged, with the auth parameters. *)
Theorem X15_has_more_follows_flag self k endpoint caller
    limit_field offset_field page_field per_page_field has_more_field s :
  UniversalAPIClient.auth self = AuthAPIKey k →
  APIKeyAuth.location k = "header" ∨ APIKeyAuth.location k = "query" →
  let out := UniversalAPIClient.get_all self endpoint caller
               PaginationStrategy.HAS_MORE limit_field offset_field page_field
               per_page_field has_more_field s in
  let flag b := default (VBool false) (assoc has_more_field b) in
  ∃ ad, APIKeyAuth.get_auth_data k s = (Ok ad, s) ∧
  let r := Req "GET" (UniversalAPIClient.request_url self endpoint)
             (auth_headers ad) (auth_params ad ∪ caller_params caller s) ∅ in
  (∀ r1 b1 i1 rest,
     inbox s = r1 :: rest → good_page r1 b1 i1 →
     truthy (flag b1) = false →
     out.1 = Ok i1 ∧ inbox out.2 = rest ∧ issued s out.2 = [r]) ∧
  (∀ r1 b1 i1 r2 b2 i2 rest,
     inbox s = r1 :: r2 :: rest → good_page r1 b1 i1 → good_page r2 b2 i2 →
     truthy (flag b1) = true → truthy (flag b2) = false →
     out.1 = Ok (i1 ++ i2) ∧ inbox out.2 = rest ∧ issued s out.2 = [r; r]) ∧
  (∀ r1 b1 i1 r2 b2 i2 r3 b3 i3 rest,
     inbox s = r1 :: r2 :: r3 :: rest →
     good_page r1 b1 i1 → good_page r2 b2 i2 → good_page r3 b3 i3 →
     truthy (flag b1) = true → truthy (flag b2) = true →
     out.1 = Ok (i1 ++ i2 ++ i3) ∧ inbox out.2 = rest ∧
     issued s out.2 = [r; r; r]).
Proof.
  intros Ha Hloc out flag.
  destruct (api_key_auth_data_ok k Hloc) as [ad Had].
  exists ad. split; [apply Had|]. intros r.
  unfold out. rewrite get_all_unfold. cbv zeta.
  change (String.eqb PaginationStrategy.HAS_MORE PaginationStrategy.OFFSET) with false.
  change (String.eqb PaginationStrategy.HAS_MORE PaginationStrategy.PAGE) with false.
  change (String.eqb PaginationStrategy.HAS_MORE PaginationStrategy.HAS_MORE) with true.
  cbv iota.
  set (p := fresh (dom (heap s))).
  set (s1 := (UniversalAPIClient.copy_params caller s).2).
  assert (Hin1 : inbox s1 = inbox s) by (unfold s1; by rewrite copy_params_run).
  assert (Hs1 : sent s1 = sent s) by apply copy_params_sent.
  assert (Hp1 : heap s1 !! p = Some (caller_params caller s))
    by apply copy_params_lookup.
  rewrite Hin1.
  set (body := UniversalAPIClient.has_more_body self endpoint p has_more_field).
  assert (Hfirst : ∀ r1 b1 i1 rest,
    inbox s = r1 :: rest → good_page r1 b1 i1 →
    body (VBool true, 0, []) s1
    = (Ok (Continue (flag b1, 1, i1)), delivered r r1 rest s1)).
  { intros r1 b1 i1 rest Hin Hg. rewrite <-Hin1 in Hin. unfold body.
    by rewrite (has_more_step self k ad endpoint p has_more_field _ (VBool true) 0 []
                  s1 r1 rest b1 i1 Ha Had Hp1 Hin Hg eq_refl). }
  assert (Hnext : ∀ has_more iteration results s0 rep rest b items,
    inbox s0 = rep :: rest → heap s0 !! p = Some (caller_params caller s) →
    good_page rep b items → truthy has_more = true →
    body (has_more, iteration, results) s0
    = (Ok (if 3 <=? iteration + 1 then Break (results ++ items)
           else Continue (flag b, iteration + 1, results ++ items)),
       delivered r rep rest s0)).
  { intros. unfold body. by apply (has_more_step self k ad). }
  assert (Hdone : ∀ has_more iteration results s0,
    truthy has_more = false →
    body (has_more, iteration, results) s0 = (Ok (Break results), s0)).
  { intros. unfold body. by apply has_more_body_done. }
  split; [|split].
  - intros r1 b1 i1 rest Hin Hg1 Hf1. rewrite Hin. simpl length.
    rewrite (while_Continue _ _ _ _ _ _ (Hfirst _ _ _ _ Hin Hg1)).
    rewrite (while_Break _ _ _ _ _ _ (Hdone _ 1 i1 _ Hf1)).
    split; [done|]. split; [done|].
    apply issued_snoc. simpl. by rewrite Hs1.
  - intros r1 b1 i1 r2 b2 i2 rest Hin Hg1 Hg2 Hf1 Hf2. rewrite Hin. simpl length.
    rewrite (while_Continue _ _ _ _ _ _ (Hfirst _ _ _ _ Hin Hg1)).
    rewrite (while_Continue _ _ _ _ _ _
               (Hnext (flag b1) 1 i1 (delivered r r1 (r2 :: rest) s1) r2 rest b2 i2
                  eq_refl Hp1 Hg2 Hf1)).
    rewrite (while_Break _ _ _ _ _ _ (Hdone _ _ _ _ Hf2)).
    split; [done|]. split; [done|].
    apply issued_snoc. simpl. rewrite Hs1. by rewrite <-app_assoc.
  - intros r1 b1 i1 r2 b2 i2 r3 b3 i3 rest Hin Hg1 Hg2 Hg3 Hf1 Hf2.
    rewrite Hin. simpl length.
    rewrite (while_Continue _ _ _ _ _ _ (Hfirst _ _ _ _ Hin Hg1)).
    rewrite (while_Continue _ _ _ _ _ _
               (Hnext (flag b1) 1 i1 (delivered r r1 (r2 :: r3 :: rest) s1) r2
                  (r3 :: rest) b2 i2 eq_refl Hp1 Hg2 Hf1)).
    rewrite (while_Break _ _ _ _ _ _
               (Hnext (flag b2) 2 (i1 ++ i2)
                  (delivered r r2 (r3 :: rest) (delivered r r1 (r2 :: r3 :: rest) s1))
                  r3 rest b3 i3 eq_refl Hp1 Hg3 Hf2)).
    split; [simpl; by rewrite <-app_assoc|]. split; [done|].
    apply issued_snoc. simpl. rewrite Hs1. by rewrite <-!app_assoc.
Qed.

Lemma flag_reply_good flag items :
  good_page (flag_reply flag items)
    [("orders", VList items); ("has_more", flag)] items.
Proof. done. Qed.

Lemma X15_has_more_follows_flag_witness :
  let s := world [flag_reply (VBool true) [VStr "a"];
                  flag_reply (VBool true) [VStr "b"];
                  flag_reply (VBool false) [VStr "c"];
                  flag_reply (VBool true) [VStr "d"]] ∅ in
  let out := UniversalAPIClient.get_all key_client "/orders" None
               PaginationStrategy.HAS_MORE "limit" "offset" "page" "per_page"
               "has_more" s in
  out.1 = Ok ([VStr "a"] ++ [VStr "b"] ++ [VStr "c"]) ∧
  inbox out.2 = [flag_reply (VBool true) [VStr "d"]] ∧
  length (issued s out.2) = 3%nat.
Proof.
  intros s out.
  destruct (X15_has_more_follows_flag key_client key_auth "/orders" None
              "limit" "offset" "page" "per_page" "has_more" s eq_refl
              (or_introl eq_refl)) as (ad & _ & _ & _ & H3).
  destruct (H3 _ _ _ _ _ _ _ _ _ _ eq_refl
              (flag_reply_good (VBool true) [VStr "a"])
              (flag_reply_good (VBool true) [VStr "b"])
              (flag_reply_good (VBool false) [VStr "c"])
              eq_refl eq_refl) as (Hres & Hin & Hsent).
  fold out in Hres, Hin, Hsent.
  split; [exact Hres|]. split; [exact Hin|]. by rewrite Hsent.
Defined.

(** ** OFFSET: first fetches *)

Lemma get_all_offset_unfold self endpoint caller
    limit_field offset_field page_field per_page_field has_more_field s :
  let p := fresh (dom (heap s)) in
  let s1 := (UniversalAPIClient.copy_params caller s).2 in
  UniversalAPIClient.get_all self endpoint caller PaginationStrategy.OFFSET
    limit_field offset_field page_field per_page_field has_more_field s =
  while (S (length (inbox s1)))
    (UniversalAPIClient.offset_body self endpoint p offset_field
       (default (VInt 50) (caller_params caller s !! limit_field)))
    (0, VNone, []) s1.
Proof.
  cbv zeta. rewrite get_all_unfold. cbv zeta.
  change (String.eqb PaginationStrategy.OFFSET PaginationStrategy.OFFSET) with true.
  cbv iota. by rewrite copy_params_lookup.
Qed.

(** X16.  OFFSET returns the items of its first page, and fetches no other,
    when the limit is 25 or more, or that page is empty (or the response
    has no "orders" entry), or the response reports a [total_count] that
    does not exceed the limit. *)
Theorem X16_offset_stops_after_first_page self endpoint caller
    limit_field offset_field page_field per_page_field has_more_field
    s n b page s' :
  let p := fresh (dom (heap s)) in
  let s1 := (UniversalAPIClient.copy_params caller s).2 in
  let total_count := default VNone (assoc "total_count" b) in
  as_int (default (VInt 50) (caller_params caller s !! limit_field)) = Some n →
  UniversalAPIClient.get self endpoint (Some p)
    (store p offset_field (VInt 0) s1).2 = (Ok (VDict b), s') →
  default (VList []) (assoc "orders" b) = VList page →
  total_count = VNone ∨ is_Some (as_int total_count) →
  25 ≤ n ∨ page = [] ∨ (∃ t, as_int total_count = Some t ∧ t ≤ n) →
  UniversalAPIClient.get_all self endpoint caller PaginationStrategy.OFFSET
    limit_field offset_field page_field per_page_field has_more_field s
  = (Ok page, s').
Proof.
  intros p s1 tc Hlim Hget Hdata Htc Hstop.
  rewrite get_all_offset_unfold. cbv zeta. fold p s1.
  apply while_Break.
  rewrite (offset_body_run self endpoint p offset_field _ n 0 VNone [] s1 b page s'
             Hlim Hget Hdata Htc).
  change (if is_None VNone then default VNone (assoc "total_count" b) else VNone)
    with tc.
  assert (amended_offset_stop (0 + n) (as_int tc) page = true) as ->; [|done].
  unfold amended_offset_stop. rewrite Z.add_0_l.
  destruct Hstop as [Hn | [-> | (t & -> & Ht)]].
  - apply Z.leb_le in Hn. by rewrite Hn.
  - by rewrite orb_true_r.
  - apply Z.leb_le in Ht. rewrite Ht. by rewrite orb_true_r.
Qed.

Lemma X16_offset_stops_after_first_page_witness :
  let s := world [reply 200 (Some (VDict [("total_count", VInt 0)]));
                  page_reply [VStr "b"]]
             {[ 1%positive := {[ "limit" := VInt 10 ]} ]} in
  let out := UniversalAPIClient.get_all key_client "/orders" (Some 1%positive)
               PaginationStrategy.OFFSET "limit" "offset" "page" "per_page"
               "has_more" s in
  out = (Ok [], out.2) ∧ inbox out.2 = [page_reply [VStr "b"]].
Proof.
  intros s out.
  pose proof (X16_offset_stops_after_first_page key_client "/orders"
                (Some 1%positive) "limit" "offset" "page" "per_page" "has_more"
                s 10 [("total_count", VInt 0)] [] out.2) as H.
  cbv zeta in H. fold out in H.
  split.
  - apply H; [vm_compute; reflexivity|vm_compute; reflexivity|reflexivity
             |right; by eexists|right; by left].
  - vm_compute. reflexivity.
Defined.

(** X17.  OFFSET with a limit that is not a number (a string, say, or
    [None]): the first page is requested and received, then the call
    raises [TypeError] on advancing the offset and the items are lost. *)
Theorem X17_offset_bad_limit self endpoint caller
    limit_field offset_field page_field per_page_field has_more_field
    s b page s' :
  let p := fresh (dom (heap s)) in
  let s1 := (UniversalAPIClient.copy_params caller s).2 in
  as_int (default (VInt 50) (caller_params caller s !! limit_field)) = None →
  UniversalAPIClient.get self endpoint (Some p)
    (store p offset_field (VInt 0) s1).2 = (Ok (VDict b), s') →
  default (VList []) (assoc "orders" b) = VList page →
  UniversalAPIClient.get_all self endpoint caller PaginationStrategy.OFFSET
    limit_field offset_field page_field per_page_field has_more_field s
  = (Raise TypeError, s').
Proof.
  intros p s1 Hlim Hget Hdata.
  rewrite get_all_offset_unfold. cbv zeta. fold p s1.
  apply while_Raise.
  unfold UniversalAPIClient.offset_body. cbv beta iota.
  assert (Hstore : store p offset_field (VInt 0) s1
                   = (Ok tt, (store p offset_field (VInt 0) s1).2)) by done.
  rewrite (bind_Ok _ _ _ _ _ Hstore), (bind_Ok _ _ _ _ _ Hget).
  assert (Hpage : py_get (VDict b) "orders" (VList []) s' = (Ok (VList page), s')).
  { unfold py_get, ret. by rewrite <-Hdata. }
  rewrite (bind_Ok _ _ _ _ _ Hpage).
  unfold py_len, py_iter. unfold bind at 1, ret at 1. unfold bind at 1, ret at 1.
  simpl is_None. cbv iota. unfold py_get at 1. unfold bind at 1, ret at 1.
  unfold py_add. by rewrite Hlim.
Qed.

Lemma X17_offset_bad_limit_witness :
  let s := world [page_reply [VStr "a"]; page_reply [VStr "b"]]
             {[ 1%positive := {[ "limit" := VStr "10" ]} ]} in
  let out := UniversalAPIClient.get_all key_client "/orders" (Some 1%positive)
               PaginationStrategy.OFFSET "limit" "offset" "page" "per_page"
               "has_more" s in
  out = (Raise TypeError, out.2) ∧ inbox out.2 = [page_reply [VStr "b"]].
Proof.
  intros s out.
  pose proof (X17_offset_bad_limit key_client "/orders"
                (Some 1%positive) "limit" "offset" "page" "per_page" "has_more"
                s [("orders", VList [VStr "a"])] [VStr "a"] out.2) as H.
  cbv zeta in H. fold out in H.
  split.
  - apply H; [vm_compute; reflexivity|vm_compute; reflexivity|reflexivity].
  - vm_compute. reflexivity.
Defined.

(** ** OFFSET with a limit that does not advance *)

Lemma get_api_key_unreachable self k ad endpoint params s :
  UniversalAPIClient.auth self = AuthAPIKey k →
  APIKeyAuth.get_auth_data k s = (Ok ad, s) →
  inbox s = [] →
  UniversalAPIClient.get self endpoint params s =
  (Raise ConnectionError,
   set_sent (sent s ++ [Req "GET" (UniversalAPIClient.request_url self endpoint)
                          (auth_headers ad)
                          (merged_params params (auth_params ad) s) ∅]) s).
Proof.
  intros Ha Had Hin. unfold UniversalAPIClient.get.
  apply bind_Raise. rewrite make_request_run. cbv zeta. rewrite Ha. simpl.
  rewrite Had. unfold requests_request, exchange. by rewrite Hin.
Qed.

Lemma offset_loop_exhausts self k ad endpoint p offset_field n :
  UniversalAPIClient.auth self = AuthAPIKey k →
  (∀ s0, APIKeyAuth.get_auth_data k s0 = (Ok ad, s0)) →
  n ≤ 0 →
  ∀ pages offset results s dcur fuel,
    offset ≤ 0 →
    Forall (λ items, items ≠ []) pages →
    inbox s = page_reply <$> pages →
    heap s !! p = Some dcur →
    (length pages < fuel)%nat →
    ∃ s',
      while fuel (UniversalAPIClient.offset_body self endpoint p offset_field (VInt n))
        (offset, VNone, results) s = (Raise ConnectionError, s') ∧
      inbox s' = [] ∧
      length (sent s') = (length (sent s) + S (length pages))%nat.
Proof.
  intros Ha Had Hn. induction pages as [|items pages IH];
    intros offset results s dcur fuel Hoff Hne Hin Hp Hfuel;
    (destruct fuel as [|fuel]; [simpl in Hfuel; lia|]).
  - eexists. split; [|split].
    + apply while_Raise, offset_body_get_raise.
      by apply (get_api_key_unreachable self k ad).
    + done.
    + simpl. rewrite length_app. simpl. lia.
  - simpl in Hin. apply Forall_cons in Hne as [Hitems Hne].
    destruct (fetch_api_key_run self k ad endpoint p offset_field offset s dcur _ _ _
                Ha Had Hp Hin (proj1 (page_reply_ok items)) (proj2 (page_reply_ok items)))
      as (Hget & Hh2 & Hs2 & Hi2).
    set (s2 := delivered _ (page_reply items) _ _) in *.
    assert (Hb : UniversalAPIClient.offset_body self endpoint p offset_field (VInt n)
                   (offset, VNone, results) s
                 = (Ok (Continue (offset + n, VNone, results ++ items)), s2)).
    { rewrite (offset_body_run self endpoint p offset_field (VInt n) n offset VNone
                 results s _ items s2 eq_refl Hget eq_refl (or_introl eq_refl)).
      simpl. unfold amended_offset_stop.
      assert ((25 <=? offset + n) = false) as -> by (apply Z.leb_gt; lia).
      by destruct items. }
    rewrite (while_Continue _ _ _ _ _ _ Hb).
    destruct (IH (offset + n) (results ++ items) s2
                (<[offset_field := VInt offset]> dcur) fuel) as (s' & Hrun & Hi & Hs);
      [lia|done|done|exact Hh2|simpl in Hfuel; lia|].
    exists s'. split; [done|]. split; [done|].
    rewrite Hs, Hs2, length_app. simpl. lia.
Qed.

(** X18.  The ceiling of 25 does not bound an OFFSET run whose limit is 0
    or negative: under an API key, against pages that are never empty and
    report no total, [get_all] takes every reply there is, asks once more,
    and ends with the [ConnectionError] of the transport. *)
Theorem X18_offset_nonpositive_limit_exhausts self k endpoint caller n pages
    limit_field offset_field page_field per_page_field has_more_field s :
  UniversalAPIClient.auth self = AuthAPIKey k →
  APIKeyAuth.location k = "header" ∨ APIKeyAuth.location k = "query" →
  caller_params caller s !! limit_field = Some (VInt n) →
  n ≤ 0 →
  Forall (λ items, items ≠ []) pages →
  inbox s = page_reply <$> pages →
  let out := UniversalAPIClient.get_all self endpoint caller
               PaginationStrategy.OFFSET limit_field offset_field page_field
               per_page_field has_more_field s in
  out.1 = Raise ConnectionError ∧ inbox out.2 = [] ∧
  length (issued s out.2) = S (length pages).
Proof.
  intros Ha Hloc Hlim Hn Hne Hin out.
  destruct (api_key_auth_data_ok k Hloc) as [ad Had].
  unfold out. rewrite get_all_offset_unfold. cbv zeta. rewrite Hlim. simpl default.
  set (s1 := (UniversalAPIClient.copy_params caller s).2).
  assert (Hin1 : inbox s1 = inbox s) by (unfold s1; by rewrite copy_params_run).
  destruct (offset_loop_exhausts self k ad endpoint (fresh (dom (heap s)))
              offset_field n Ha Had Hn pages 0 [] s1 (caller_params caller s)
              (S (length (inbox s1)))) as (s' & Hrun & Hi & Hs);
    [done|done|by rewrite Hin1|apply copy_params_lookup
    |rewrite Hin1, Hin, length_fmap; lia|].
  rewrite Hrun. simpl. split; [done|]. split; [done|].
  unfold issued. rewrite length_drop, Hs. unfold s1.
  rewrite copy_params_sent. lia.
Qed.

Lemma X18_offset_nonpositive_limit_exhausts_witness :
  let s := world (page_reply <$> [[VStr "a"]; [VStr "b"]; [VStr "c"]])
             {[ 1%positive := {[ "limit" := VInt 0 ]} ]} in
  let out := UniversalAPIClient.get_all key_client "/orders" (Some 1%positive)
               PaginationStrategy.OFFSET "limit" "offset" "page" "per_page"
               "has_more" s in
  out.1 = Raise ConnectionError ∧ inbox out.2 = [] ∧
  length (issued s out.2) = 4%nat.
Proof.
  apply (X18_offset_nonpositive_limit_exhausts key_client key_auth "/orders"
           (Some 1%positive) 0 [[VStr "a"]; [VStr "b"]; [VStr "c"]]
           "limit" "offset" "page" "per_page" "has_more"
           (world (page_reply <$> [[VStr "a"]; [VStr "b"]; [VStr "c"]])
              {[ 1%positive := {[ "limit" := VInt 0 ]} ]})).
  - reflexivity.
  - left. reflexivity.
  - vm_compute. reflexivity.
  - lia.
  - repeat constructor; discriminate.
  - reflexivity.
Defined.

(** ** [get] and [post] under an API key *)

Lemma make_request_api_key_run self k ad method endpoint params kwargs s rep rest :
  UniversalAPIClient.auth self = AuthAPIKey k →
  APIKeyAuth.get_auth_data k s = (Ok ad, s) →
  inbox s = rep :: rest →
  UniversalAPIClient._make_request self method endpoint params kwargs s =
  (if status_ok (status_code rep) then Ok rep
   else Raise (HTTPError (status_code rep)),
   delivered (Req method (UniversalAPIClient.request_url self endpoint)
                (auth_headers ad) (merged_params params (auth_params ad) s) kwargs)
     rep rest s).
Proof.
  intros Ha Had Hin. rewrite make_request_run. cbv zeta. rewrite Ha. simpl.
  rewrite Had. unfold requests_request. rewrite (exchange_run _ _ _ _ Hin).
  by rewrite andb_false_r.
Qed.

(** X19.  Under an API key, [get] and [post] send one request each and take
    one reply.  A reply with a status from 400 to 599 gives [HTTPError]
    with that status and its body is not parsed; otherwise the parsed body
    is returned, or [JSONDecodeError] is raised when the body is not JSON.
    [get] sends the caller's parameters overlaid with those of the auth
    data and no body; [post] sends the body under [json] and the parameters
    of the auth data only. *)
Theorem X19_get_post_results self k endpoint params json_body s rep rest :
  UniversalAPIClient.auth self = AuthAPIKey k →
  APIKeyAuth.location k = "header" ∨ APIKeyAuth.location k = "query" →
  inbox s = rep :: rest →
  let parsed : outcome value :=
    if status_ok (status_code rep) then
      match body rep with
      | Some v => Ok v
      | None => Raise JSONDecodeError
      end
    else Raise (HTTPError (status_code rep)) in
  let url := UniversalAPIClient.request_url self endpoint in
  ∃ ad, APIKeyAuth.get_auth_data k s = (Ok ad, s) ∧
    UniversalAPIClient.get self endpoint params s =
      (parsed, delivered (Req "GET" url (auth_headers ad)
                            (auth_params ad ∪ caller_params params s) ∅)
                 rep rest s) ∧
    UniversalAPIClient.post self endpoint json_body s =
      (parsed, delivered (Req "POST" url (auth_headers ad) (auth_params ad)
                            {[ "json" := json_body ]})
                 rep rest s).
Proof.
  intros Ha Hloc Hin parsed url.
  destruct (api_key_auth_data_ok k Hloc) as [ad Had].
  exists ad. split; [apply Had|].
  unfold UniversalAPIClient.get, UniversalAPIClient.post, bind.
  rewrite !(make_request_api_key_run self k ad _ endpoint _ _ s rep rest Ha (Had s) Hin).
  unfold merged_params. fold (caller_params params s). rewrite (right_id_L ∅ (∪)).
  unfold parsed, json, url.
  destruct (status_ok (status_code rep)); [|done].
  by destruct (body rep).
Qed.

Lemma X19_get_post_results_witness :
  let s := world [reply 201 None] ∅ in
  (UniversalAPIClient.post key_client "/orders" (VDict [("sku", VInt 7)]) s).1
  = Raise JSONDecodeError ∧
  (UniversalAPIClient.get key_client "/orders" None
     (world [reply 404 (Some (VDict []))] ∅)).1 = Raise (HTTPError 404).
Proof.
  intros s. split.
  - destruct (X19_get_post_results key_client key_auth "/orders" None
                (VDict [("sku", VInt 7)]) s (reply 201 None) []
                eq_refl (or_introl eq_refl) eq_refl) as (ad & _ & _ & Hpost).
    by rewrite Hpost.
  - destruct (X19_get_post_results key_client key_auth "/orders" None VNone
                (world [reply 404 (Some (VDict []))] ∅)
                (reply 404 (Some (VDict []))) []
                eq_refl (or_introl eq_refl) eq_refl) as (ad & _ & Hget & _).
    by rewrite Hget.
Defined.

(** ** The script [main_api_key.py] *)

Lemma get_api_key_headers self k ad endpoint params :
  UniversalAPIClient.auth self = AuthAPIKey k →
  (∀ s0, APIKeyAuth.get_auth_data k s0 = (Ok ad, s0)) →
  preserves
    (issues (λ r, ∃ final_params,
               r = Req "GET" (UniversalAPIClient.request_url self endpoint)
                     (auth_headers ad) final_params ∅))
    (UniversalAPIClient.get self endpoint params).
Proof.
  intros Ha Had s.
  exists [Req "GET" (UniversalAPIClient.request_url self endpoint)
            (auth_headers ad) (merged_params params (auth_params ad) s) ∅].
  split; [|constructor; [by eexists|constructor]].
  destruct (inbox s) as [|rep rest] eqn:Hin.
  - by rewrite (get_api_key_unreachable self k ad endpoint params s Ha (Had s) Hin).
  - unfold UniversalAPIClient.get, bind.
    rewrite (make_request_api_key_run self k ad _ endpoint _ _ s rep rest Ha (Had s) Hin).
    destruct (status_ok (status_code rep)); [|done].
    unfold json. by destruct (body rep).
Qed.

Lemma Forall_reqs_api_calls s s' (Φ : Request → Prop) :
  (∀ r, Φ r → is_req r = true) →
  Forall Φ (issued s s') → api_calls s s' = issued s s'.
Proof.
  intros HΦ Hall. unfold api_calls.
  induction Hall as [|r l Hr _ IH]; [done|].
  rewrite filter_cons_True by (by apply HΦ). by rewrite IH.
Qed.

(** X20.  The script, run with a [base_url] in its environment, sends at
    most five requests, all of them GETs of the orders endpoint under the
    base URL without its trailing slashes, each with the API key under
    "Authorization" and "application/json" under "Accept"; it never asks
    for a token.  Without a [base_url] it stops with [AttributeError]
    before anything is sent. *)
Theorem X20_main_api_key_requests env s :
  let out := main_api_key.main env s in
  (env !! "base_url" = None → out = (Raise AttributeError, s)) ∧
  (∀ base_url,
     env !! "base_url" = Some base_url →
     (length (issued s out.2) ≤ 5)%nat ∧
     Forall (λ r, ∃ headers final_params,
               r = Req "GET" (rstrip "/" base_url +:+ "/orders")
                     headers final_params ∅ ∧
               headers !! "Authorization" = Some (main_api_key.env_get env "api_key") ∧
               headers !! "Accept" = Some (VStr "application/json"))
       (issued s out.2)).
Proof.
  cbv zeta. unfold main_api_key.main. cbv zeta. split.
  { intros ->. done. }
  intros base_url ->.
  set (k := {| APIKeyAuth.api_key := main_api_key.env_get env "api_key";
               APIKeyAuth.location := "header";
               APIKeyAuth.name := "Authorization";
               APIKeyAuth.extra_headers := {[ "Accept" := VStr "application/json" ]} |}).
  set (client := {| UniversalAPIClient.base_url := rstrip "/" base_url;
                    UniversalAPIClient.auth := AuthAPIKey k |}).
  assert (Hinit : UniversalAPIClient.__init__ base_url (main_api_key.config env) s
                  = (Ok client, s)).
  { unfold UniversalAPIClient.__init__, UniversalAPIClient._create_auth,
      main_api_key.config, bind, required, ret. simpl.
    unfold client, k, APIKeyAuth.__init__. simpl.
    assert (dict_truthy ({[ "Accept" := VStr "application/json" ]} : dict) = true)
      as -> by (by vm_compute).
    done. }
  rewrite (bind_Ok _ _ _ _ _ Hinit).
  set (p := fresh (dom (heap s))).
  set (d := ({[ "max" := VInt 5 ]} : dict)).
  set (s1 := set_heap (<[p := d]> (heap s)) s).
  assert (Halloc : alloc d s = (Ok p, s1)) by done.
  rewrite (bind_Ok _ _ _ _ _ Halloc).
  assert (Hs1 : sent s1 = sent s) by done.
  set (ad := {| auth_headers := ({[ "Accept" := VStr "application/json" ]} : dict)
                                ∪ {[ "Authorization" := main_api_key.env_get env "api_key" ]};
                auth_params := ∅ |}).
  assert (Had : ∀ s0, APIKeyAuth.get_auth_data k s0 = (Ok ad, s0)) by done.
  pose proof (issues_issued _ _ _
    (get_all_preserves_issues _ client "/orders" (Some p)
       PaginationStrategy.OFFSET "max" "offset" "page" "per_page" "has_more"
       (λ q, get_api_key_headers client k ad "/orders" q eq_refl Had) s1))
    as [_ Hall].
  set (out := UniversalAPIClient.get_all client "/orders" (Some p)
                PaginationStrategy.OFFSET "max" "offset" "page" "per_page"
                "has_more" s1) in *.
  replace (issued s out.2) with (issued s1 out.2)
    by (unfold issued; by rewrite Hs1).
  split.
  - assert (api_calls s1 out.2 = issued s1 out.2) as <-.
    { eapply Forall_reqs_api_calls; [|exact Hall]. by intros r [fp ->]. }
    pose proof (get_all_offset_calls client "/orders" (Some p)
                  "max" "offset" "page" "per_page" "has_more" s1 5) as Hb.
    cbv zeta in Hb. fold out in Hb. apply Hb; [|lia].
    unfold caller_params, s1. simpl. rewrite lookup_insert_eq. by vm_compute.
  - eapply Forall_impl; [exact Hall|]. intros r [fp ->].
    eexists _, fp. split; [reflexivity|]. split.
    + unfold ad. simpl. rewrite lookup_union_r; [apply lookup_singleton_eq|].
      by apply lookup_singleton_ne.
    + unfold ad. simpl. apply lookup_union_Some_l, lookup_singleton_eq.
Qed.

Lemma X20_main_api_key_requests_witness :
  let env : gmap string string :=
    {[ "base_url" := "https://x.com/"; "api_key" := "secret" ]} in
  let s := world (replicate 9 (page_reply [VStr "a"])) ∅ in
  let out := main_api_key.main env s in
  (length (issued s out.2) ≤ 5)%nat.
Proof.
  intros env s out.
  destruct (X20_main_api_key_requests env s) as [_ H].
  destruct (H "https://x.com/") as [Hlen _]; [by vm_compute|exact Hlen].
Defined.
